(** * Calico: scripted verification of interactive command-line programs

    A shallow embedding of [calico/base.py] (actions, [run_script],
    [TestCase], the [Calico] suite, the [Clioc] recorder) and of
    [calico/parse.py] ([get_comment_value], [parse_spec]), followed by the
    properties established about them.

    Conventions of the embedding.
    - A Python exception is a value: fallible code returns [result].
    - The child process, [pexpect] and the other library calls are not
      part of the repository; they are a [World]: every call made on the
      process is appended to a history, and the world answers each call from
      the history so far.  A theorem quantified over [World] holds whatever
      the child does.
    - Objects that the code mutates in place (the script list and the
      actions in it, the suite) are threaded through the functions: a run
      returns the new value of what it was given.
    - Logging and console output are left out, except where evaluating
      their arguments can raise.
    - Strings are sequences of 8-bit characters; points are Python ints. *)

From Stdlib Require Import ZArith List String Ascii Bool Lia.
From Stdlib Require Import DecimalString.
From Stdlib Require DecimalPos DecimalZ.
From Stdlib Require Strings.Byte.
Import ListNotations.

Local Open Scope string_scope.
Local Open Scope list_scope.
Local Open Scope Z_scope.

(** ** Exceptions and results *)

Inductive exn : Type :=
| PexpectEOF                    (* pexpect.EOF *)
| PexpectTIMEOUT                (* pexpect.TIMEOUT *)
| ExceptionPexpect
| TypeError
| ValueError
| KeyError
| IndexError
| AttributeError
| UnicodeDecodeError
| OSError
| YAMLError
| AssertionError (msg : string).

Inductive result (A : Type) : Type :=
| Ok (a : A)
| Raise (e : exn).

Arguments Ok {A} a.
Arguments Raise {A} e.

Definition bind {A B : Type} (c : result A) (k : A -> result B) : result B :=
  match c with
  | Ok a => k a
  | Raise e => Raise e
  end.

Declare Scope py_scope.
Delimit Scope py_scope with py.
Notation "x <- c ;; k" := (bind c (fun x => k))
  (at level 100, c at next level, right associativity) : py_scope.
Notation "' p <- c ;; k" := (bind c (fun x => match x with p => k end))
  (at level 100, p pattern, c at next level, right associativity) : py_scope.
Local Open Scope py_scope.

Definition is_ok {A : Type} (r : result A) : bool :=
  match r with Ok _ => true | Raise _ => false end.

(** [assert cond, msg] *)
Definition assert (cond : bool) (msg : string) : result unit :=
  if cond then Ok tt else Raise (AssertionError msg).

(** ** Actions *)

Inductive ActionType : Type :=
| EXPECT   (* ("e", "expect") *)
| SEND.    (* ("s", "send") *)

Definition ActionType_eqb (a b : ActionType) : bool :=
  match a, b with
  | EXPECT, EXPECT | SEND, SEND => true
  | _, _ => false
  end.

(** [ActionType.value]: the short and the long name. *)
Definition value (t : ActionType) : string * string :=
  match t with
  | EXPECT => ("e", "expect")
  | SEND => ("s", "send")
  end.

(** What [Action.data] holds: a string, or the class [pexpect.EOF]. *)
Inductive payload : Type :=
| Text (s : string)
| EOF.

(** [data != "_EOF_"], a comparison with a string: the class [pexpect.EOF]
    differs from every string. *)
Definition differs_from_EOF_literal (d : payload) : bool :=
  match d with
  | Text s => negb (String.eqb s "_EOF_")
  | EOF => true
  end.

(** [data is pexpect.EOF] *)
Definition is_EOF (d : payload) : bool :=
  match d with
  | Text _ => false
  | EOF => true
  end.

(** The default of the [timeout] parameters. *)
Definition no_timeout : option Z := Some (-1).

Module Action.

(** [timeout] is [Optional[int]]: [None] is Python's [None]. *)
Record t : Type := mk {
  type_ : ActionType;
  data : payload;
  timeout : option Z
}.

(** [Action.__init__(self, type_, data, timeout=-1)] *)
Definition init (type_ : ActionType) (data : string) (timeout : option Z) : t :=
  {| type_ := type_;
     data := if String.eqb data "_EOF_" then EOF else Text data;
     timeout := timeout |}.

Definition set_data (a : t) (d : payload) : t :=
  {| type_ := type_ a; data := d; timeout := timeout a |}.

End Action.

(** ** The world outside the repository *)

(** [process.before] / [process.after] as [run_script] reads them: the bytes
    received, or the class [pexpect.EOF] after a matched end of output. *)
Inductive output : Type :=
| Bytes (bs : list Byte.byte)
| EOFClass.

(** The calls [run_script] makes on [pexpect], with their arguments. *)
Inductive call : Type :=
| Spawn (command : string) (timeout : Z)          (* pexpect.spawn(command, timeout=...) *)
| SetEcho (state : bool)                          (* process.setecho(state) *)
| ExpectCall (pattern : payload) (timeout : option Z)  (* process.expect(pattern, timeout=...) *)
| SendLine (s : payload)                          (* process.sendline(s) *)
| Close (force : bool).                           (* process.close(force=...) *)

(** How a call ends: it returns (for [expect], with [process.after]), or it
    raises (for [expect], with [process.before]). *)
Inductive response : Type :=
| Returns (after : output)
| Raises (e : exn) (before : output).

(** [D] is the type of the objects given as [defs].
    - [GLOBAL_TIMEOUT], [SUPPORTS_JAIL]: constants of [calico/__init__.py].
    - [getcwd]: [os.getcwd()].
    - [percent s defs]: [s % defs]; [None] stands for the empty dict that
      [run_script] substitutes for a missing [defs].
    - [decode]: [bytes.decode()], [None] when it raises [UnicodeDecodeError].
    - [respond h]: how the last call of the history [h] ends.
    - [status h]: [(process.exitstatus, process.signalstatus)] after [h]. *)
Record World (D : Type) : Type := {
  GLOBAL_TIMEOUT : Z;
  SUPPORTS_JAIL : bool;
  getcwd : string;
  percent : string -> option D -> result string;
  decode : list Byte.byte -> option string;
  respond : list call -> response;
  status : list call -> option Z * option Z
}.

Arguments GLOBAL_TIMEOUT {D} _.
Arguments SUPPORTS_JAIL {D} _.
Arguments getcwd {D} _.
Arguments percent {D} _ _ _.
Arguments decode {D} _ _.
Arguments respond {D} _ _.
Arguments status {D} _ _.

(** [".EOF" in repr(output)] for a bytes object: [repr] shows the printable
    characters as they are and never produces an upper-case letter of its
    own, so the test is whether the bytes contain [.EOF]. *)
Fixpoint starts_with (p bs : list Byte.byte) : bool :=
  match p, bs with
  | [], _ => true
  | _ :: _, [] => false
  | x :: p', b :: bs' => Byte.eqb x b && starts_with p' bs'
  end.

Fixpoint contains (p bs : list Byte.byte) : bool :=
  starts_with p bs ||
  match bs with
  | [] => false
  | _ :: bs' => contains p bs'
  end.

Definition dot_EOF : list Byte.byte := [Byte.x2e; Byte.x45; Byte.x4f; Byte.x46].

Definition dquote : string := String (ascii_of_nat 34) EmptyString.

(** What [run_script] hands back: its return value
    [(exit_status, signal_status, errors)], and the new state of the script
    it was given and of the history. *)
Module Outcome.

Record t : Type := mk {
  exit_status : option Z;
  signal_status : option Z;
  errors : list string;
  script : list Action.t;
  history : list call
}.

End Outcome.

Section RunScript.

Context {D : Type} (W : World D).

(** The expression
    ["_EOF_" if ".EOF" in repr(output) else ('"%(o)s"' % {"o": output.decode()})]
    that [run_script] evaluates for its debug message. *)
Definition received (out : output) : result string :=
  match out with
  | EOFClass => Ok "_EOF_"
  | Bytes bs =>
      if contains dot_EOF bs then Ok "_EOF_"
      else match decode W bs with
           | Some o => Ok (dquote ++ o ++ dquote)%string
           | None => Raise UnicodeDecodeError
           end
  end.

(** A call whose exceptions [run_script] does not catch. *)
Definition invoke (h : list call) (c : call) : result (list call) :=
  match respond W (h ++ [c]) with
  | Returns _ => Ok (h ++ [c])
  | Raises e _ => Raise e
  end.

(** Lines 104-106: the trailing action appended to the script. *)
Definition needs_EOF (script : list Action.t) : bool :=
  match last (map Some script) None with
  | None => true
  | Some l =>
      negb (ActionType_eqb (Action.type_ l) EXPECT)
      && differs_from_EOF_literal (Action.data l)
  end.

Definition with_trailing_EOF (script : list Action.t) : list Action.t :=
  if needs_EOF script
  then script ++ [Action.init EXPECT "_EOF_" no_timeout]
  else script.

(** Lines 109-110: [action.data = action.data % defs]. *)
Definition substitute (defs : option D) (a : Action.t) : result Action.t :=
  match Action.data a with
  | EOF => Ok a
  | Text s => s' <- percent W s defs ;; Ok (Action.set_data a (Text s'))
  end.

(** Lines 108-148, the [for ... else] loop.  The result is the error list,
    the script with the data of the actions reached replaced, and the
    history. *)
Fixpoint run_actions (defs : option D) (todo : list Action.t) (h : list call)
  : result (list string * list Action.t * list call) :=
  match todo with
  | [] =>
      h' <- invoke h (Close true) ;;
      Ok ([], [], h')
  | action :: rest =>
      action <- substitute defs action ;;
      match Action.type_ action with
      | EXPECT =>
          let h1 := h ++ [ExpectCall (Action.data action) (Action.timeout action)] in
          match respond W h1 with
          | Returns after =>
              _ <- received after ;;
              ' (errors, rest', h') <- run_actions defs rest h1 ;;
              Ok (errors, action :: rest', h')
          | Raises PexpectEOF before =>
              _ <- received before ;;
              h2 <- invoke h1 (Close true) ;;
              Ok (["Expected output not received."], action :: rest, h2)
          | Raises PexpectTIMEOUT before =>
              _ <- received before ;;
              h2 <- invoke h1 (Close true) ;;
              Ok (["Timeout exceeded."], action :: rest, h2)
          | Raises e _ => Raise e
          end
      | SEND =>
          h1 <- invoke h (SendLine (Action.data action)) ;;
          ' (errors, rest', h') <- run_actions defs rest h1 ;;
          Ok (errors, action :: rest', h')
      end
  end.

(** [run_script(command, script, defs=None, g_timeout=None)] *)
Definition run_script (command : string) (script : list Action.t)
    (defs : option D) (g_timeout : option Z) (h : list call) : result Outcome.t :=
  let g_timeout := match g_timeout with Some g => g | None => GLOBAL_TIMEOUT W end in
  h <- invoke h (Spawn command g_timeout) ;;
  h <- invoke h (SetEcho false) ;;
  let script := with_trailing_EOF script in
  ' (errors, script, h) <- run_actions defs script h ;;
  Ok {| Outcome.exit_status := fst (status W h);
        Outcome.signal_status := snd (status W h);
        Outcome.errors := errors;
        Outcome.script := script;
        Outcome.history := h |}.

End RunScript.

(** ** Test cases *)

(** A keyword argument as [parse_spec] builds it: an int or a bool. *)
Inductive kwvalue : Type :=
| KInt (z : Z)
| KBool (b : bool).

(** A bool is an int in Python: [True == 1]. *)
Definition int_of (v : kwvalue) : Z :=
  match v with
  | KInt z => z
  | KBool b => Z.b2z b
  end.

(** Truth value of an int or a bool. *)
Definition truth (v : kwvalue) : bool :=
  match v with
  | KInt z => negb (z =? 0)
  | KBool b => b
  end.

Module TestCase.

Record t : Type := mk {
  name : string;
  command : string;
  script : list Action.t;
  timeout : option Z;
  exits : option Z;
  points : option Z;
  blocker : bool;
  visible : bool
}.

(** [TestCase.__init__] with every optional parameter at its default:
    [timeout=-1, exits=0, points=None, blocker=False, visible=True]. *)
Definition init (name command : string) : t :=
  {| name := name; command := command; script := [];
     timeout := no_timeout; exits := Some 0; points := None;
     blocker := false; visible := true |}.

(** One keyword argument bound to the parameter of that name; a keyword
    that names no parameter of [__init__] is a [TypeError]. *)
Definition bind_keyword (self : t) (kw : string * kwvalue) : result t :=
  let (k, v) := kw in
  if String.eqb k "timeout" then
    Ok (mk (name self) (command self) (script self) (Some (int_of v))
           (exits self) (points self) (blocker self) (visible self))
  else if String.eqb k "exits" then
    Ok (mk (name self) (command self) (script self) (timeout self)
           (Some (int_of v)) (points self) (blocker self) (visible self))
  else if String.eqb k "points" then
    Ok (mk (name self) (command self) (script self) (timeout self)
           (exits self) (Some (int_of v)) (blocker self) (visible self))
  else if String.eqb k "blocker" then
    Ok (mk (name self) (command self) (script self) (timeout self)
           (exits self) (points self) (truth v) (visible self))
  else if String.eqb k "visible" then
    Ok (mk (name self) (command self) (script self) (timeout self)
           (exits self) (points self) (blocker self) (truth v))
  else Raise TypeError.

Fixpoint bind_keywords (self : t) (kwargs : list (string * kwvalue)) : result t :=
  match kwargs with
  | [] => Ok self
  | kw :: rest => self <- bind_keyword self kw ;; bind_keywords self rest
  end.

(** The call [TestCase(name, command=command, **kwargs)]. *)
Definition new (name command : string) (kwargs : list (string * kwvalue)) : result t :=
  bind_keywords (init name command) kwargs.

Definition set_script (self : t) (s : list Action.t) : t :=
  mk (name self) (command self) s (timeout self)
     (exits self) (points self) (blocker self) (visible self).

(** [add_action(self, action)] *)
Definition add_action (self : t) (action : Action.t) : t :=
  set_script self (script self ++ [action]).

(** The report of one case: [{"errors": [...]}], to which [Calico.run]
    adds ["points"] for a case that declares points. *)
Record report : Type := {
  errors : list string;
  awarded : option Z
}.

(** [exit_status != self.exits] *)
Definition status_differs (a b : option Z) : bool :=
  match a, b with
  | Some x, Some y => negb (x =? y)
  | None, None => false
  | _, _ => true
  end.

Section Run.

Context {D : Type} (W : World D).

(** Lines 242-243: the command line that is logged. *)
Definition jailed_command (self : t) (jailed : bool) : string :=
  let jail_prefix :=
    if jailed then ("fakechroot chroot " ++ getcwd W ++ " ")%string else "" in
  (jail_prefix ++ command self)%string.

(** [run(self, defs=None, jailed=False, g_timeout=None)]: the report,
    the case after the run and the history. *)
Definition run (self : t) (defs : option D) (jailed : bool)
    (g_timeout : option Z) (h : list call) : result (report * t * list call) :=
  let command := jailed_command self jailed in
  o <- run_script W (TestCase.command self) (script self) defs g_timeout h ;;
  let errors := [] ++ Outcome.errors o in
  let errors :=
    if status_differs (Outcome.exit_status o) (exits self)
    then errors ++ ["Incorrect exit status."]
    else errors in
  Ok ({| errors := errors; awarded := None |},
      set_script self (Outcome.script o),
      Outcome.history o).

End Run.

End TestCase.

(** ** The suite *)

Module Calico.

(** An [OrderedDict]: keys in insertion order; assigning to a key that is
    present replaces its value where it stands. *)
Fixpoint setitem {A : Type} (k : string) (v : A) (d : list (string * A))
  : list (string * A) :=
  match d with
  | [] => [(k, v)]
  | (k', v') :: d' =>
      if String.eqb k' k then (k', v) :: d' else (k', v') :: setitem k v d'
  end.

Fixpoint get {A : Type} (k : string) (d : list (string * A)) : option A :=
  match d with
  | [] => None
  | (k', v) :: d' => if String.eqb k' k then Some v else get k d'
  end.

Definition keys {A : Type} (d : list (string * A)) : list string := map fst d.
Definition values {A : Type} (d : list (string * A)) : list A := map snd d.

Record t : Type := mk {
  cases : list (string * TestCase.t);
  points : Z
}.

(** [Calico.__init__] *)
Definition init : t := {| cases := []; points := 0 |}.

(** [add_case(self, case)] *)
Definition add_case (self : t) (case : TestCase.t) : t :=
  {| cases := setitem (TestCase.name case) case (cases self);
     points := points self
               + match TestCase.points case with Some p => p | None => 0 end |}.

(** An entry of the report of a run: the report of a case, or the earned
    points under the key ["points"]. *)
Inductive entry : Type :=
| Case (r : TestCase.report)
| Earned (p : Z).

(** [[n for n in self.keys() if n[0] != "_"]]; [n[0]] of an empty name is
    an [IndexError]. *)
Fixpoint runnable (names : list string) : result (list string) :=
  match names with
  | [] => Ok []
  | n :: rest =>
      match n with
      | EmptyString => Raise IndexError
      | String c _ =>
          if Ascii.eqb c "_"%char
          then runnable rest
          else (rest' <- runnable rest ;; Ok (n :: rest'))
      end
  end.

(** Line 307: the names to run. *)
Definition test_names (self : t) (tests : option (list string)) : result (list string) :=
  match tests with
  | Some names => Ok names
  | None => runnable (keys (cases self))
  end.

(** The local variables of [run] and the objects it mutates. *)
Record state : Type := {
  report : list (string * entry);
  earned_points : Z;
  suite : t;
  history : list call
}.

Section Run.

Context (W : World TestCase.t).

(** Lines 309-333: one turn of the loop over [test_names]; the flag
    tells whether the [break] of line 333 is taken. *)
Definition run_test (g_timeout : option Z) (test_name : string) (st : state)
  : result (state * bool) :=
  match get test_name (cases (suite st)) with
  | None => Raise AttributeError
  | Some test =>
      let jailed := SUPPORTS_JAIL W && String.prefix "case_" test_name in
      ' (r, test, h) <- TestCase.run W test
                         (get "_define_vars" (cases (suite st)))
                         jailed g_timeout (history st) ;;
      let passed := (List.length (TestCase.errors r) =? 0)%nat in
      let r :=
        match TestCase.points test with
        | None => r
        | Some p =>
            {| TestCase.errors := TestCase.errors r;
               TestCase.awarded := Some (if passed then p else 0) |}
        end in
      let earned :=
        match TestCase.awarded r with
        | Some p => earned_points st + p
        | None => earned_points st
        end in
      Ok ({| report := setitem test_name (Case r) (report st);
             earned_points := earned;
             suite := mk (setitem test_name test (cases (suite st)))
                         (points (suite st));
             history := h |},
          TestCase.blocker test && negb passed)
  end.

(** Lines 308-333: the loop. *)
Fixpoint run_tests (g_timeout : option Z) (test_names : list string) (st : state)
  : result state :=
  match test_names with
  | [] => Ok st
  | test_name :: rest =>
      ' (st, stop) <- run_test g_timeout test_name st ;;
      if stop then Ok st else run_tests g_timeout rest st
  end.

(** Line 335, [report["points"] = earned_points], and the return. *)
Definition finish (st : state) : state :=
  {| report := setitem "points" (Earned (earned_points st)) (report st);
     earned_points := earned_points st;
     suite := suite st;
     history := history st |}.

(** [run(self, tests=None, quiet=False, g_timeout=None)]; [quiet] only
    controls what is printed. *)
Definition run (self : t) (tests : option (list string)) (quiet : bool)
    (g_timeout : option Z) (h : list call) : result state :=
  test_names <- test_names self tests ;;
  st <- run_tests g_timeout test_names
          {| report := []; earned_points := 0; suite := self; history := h |} ;;
  Ok (finish st).

End Run.

End Calico.

(** ** Parsed YAML documents and string helpers *)

(** What [yaml.round_trip_load] returns, as far as [parse_spec] looks at
    it: scalars (null, bool, int, str), sequences, and mappings with string
    keys; floats and the other scalars a loader can produce are left out.
    A mapping carries the comments attached to its keys: [ca] maps a key to
    slot 2 of [node.ca.items[key]], which is [None] or the text of a comment
    token. *)
#[local] Set Warnings "-register-all".
Inductive yaml : Type :=
| YNull
| YBool (b : bool)
| YInt (z : Z)
| YStr (s : string)
| YSeq (items : list yaml)
| YMap (entries : list (string * yaml)) (ca : list (string * option string)).

(** The library functions used for rendering and loading:
    [json.dumps] on a string, [textwrap.indent], [textwrap.dedent] and
    [yaml.round_trip_load]. *)
Record Library : Type := {
  dumps : string -> string;
  indent : string -> string -> string;
  dedent : string -> string;
  round_trip_load : string -> result yaml
}.

Definition nl : string := String (ascii_of_nat 10) EmptyString.

(** [str(n)] of an int. *)
Definition str_int (z : Z) : string := NilZero.string_of_int (Z.to_int z).

(** [str(x)] of an [Optional[int]]. *)
Definition str_optional (x : option Z) : string :=
  match x with
  | Some z => str_int z
  | None => "None"
  end.

(** [c.isspace()] for a character below U+0100. *)
Definition isspace (c : ascii) : bool :=
  let n := nat_of_ascii c in
  ((9 <=? n) && (n <=? 13) || (28 <=? n) && (n <=? 32)
   || (n =? 133) || (n =? 160))%nat.

Fixpoint lstrip (s : string) : string :=
  match s with
  | EmptyString => EmptyString
  | String c s' => if isspace c then lstrip s' else s
  end.

(** Drops trailing white space. *)
Fixpoint rstrip (s : string) : string :=
  match s with
  | EmptyString => EmptyString
  | String c s' =>
      match rstrip s' with
      | EmptyString => if isspace c then EmptyString else String c EmptyString
      | r => String c r
      end
  end.

(** [s.strip()] *)
Definition strip (s : string) : string := rstrip (lstrip s).

(** [s[n:]] *)
Fixpoint drop (n : nat) (s : string) : string :=
  match n, s with
  | O, _ => s
  | S n', String _ s' => drop n' s'
  | S _, EmptyString => EmptyString
  end.

Definition is_ascii_digit (c : ascii) : bool :=
  let n := nat_of_ascii c in ((48 <=? n) && (n <=? 57))%nat.

(** [c.isdigit()] for a character below U+0100: the decimal digits and the
    superscripts one, two and three. *)
Definition isdigit_char (c : ascii) : bool :=
  let n := nat_of_ascii c in
  is_ascii_digit c || ((n =? 178) || (n =? 179) || (n =? 185))%nat.

Fixpoint all_chars (p : ascii -> bool) (s : string) : bool :=
  match s with
  | EmptyString => true
  | String c s' => p c && all_chars p s'
  end.

(** [s.isdigit()] *)
Definition isdigit (s : string) : bool :=
  negb (String.eqb s "") && all_chars isdigit_char s.

Fixpoint digits_value (acc : Z) (s : string) : Z :=
  match s with
  | EmptyString => acc
  | String c s' => digits_value (10 * acc + (Z.of_nat (nat_of_ascii c) - 48)) s'
  end.

(** [int(s)] for a string that passed [isdigit]: a superscript digit is not
    accepted by [int]. *)
Definition int (s : string) : result Z :=
  if all_chars is_ascii_digit s then Ok (digits_value 0 s) else Raise ValueError.

(** ** Rendering *)

Section Rendering.

Context (L : Library).

(** [Action.__iter__] *)
Definition Action_iter (a : Action.t) : string * string * option Z :=
  (snd (value (Action.type_ a)),
   match Action.data a with Text s => s | EOF => "_EOF_" end,
   Action.timeout a).

(** [Action.__str__] *)
Definition Action_str (a : Action.t) : string :=
  let '(action_type, action_data, timeout) := Action_iter a in
  let timeout :=
    match timeout with
    | Some (-1) => ""
    | _ => ("# timeout: " ++ str_optional timeout)%string
    end in
  let action_data :=
    if negb (String.eqb action_data "_EOF_") then dumps L action_data
    else action_data in
  ("- " ++ action_type ++ ": " ++ action_data ++ " " ++ timeout ++ nl)%string.

(** [TestCase.__str__] *)
Definition TestCase_str (self : TestCase.t) : string :=
  let script :=
    fold_left (fun script action => (script ++ Action_str action)%string)
              (TestCase.script self) nl in
  let script := indent L script "                " in
  let spec :=
    (nl ++
     "        - " ++ TestCase.name self ++ ":" ++ nl ++
     "            run: " ++ TestCase.command self ++ nl ++
     "            script: " ++ script ++ nl ++
     "            return: " ++ str_optional (TestCase.exits self) ++ nl ++
     "            points: " ++ str_optional (TestCase.points self) ++ nl ++
     "        ")%string in
  dedent L spec.

(** ["\n".join(...)] *)
Fixpoint join (sep : string) (parts : list string) : string :=
  match parts with
  | [] => ""
  | [p] => p
  | p :: rest => (p ++ sep ++ join sep rest)%string
  end.

(** [Calico.__str__] *)
Definition Calico_str (self : Calico.t) : string :=
  join nl (map TestCase_str (Calico.values (Calico.cases self))).

End Rendering.

(** ** Parsing *)

(** [node.get(key)] on a mapping; a key bound to null gives [None] as a
    missing key does.  On anything but a mapping the attribute is missing. *)
Definition yaml_get (node : yaml) (key : string) : result (option yaml) :=
  match node with
  | YMap entries _ =>
      match Calico.get key entries with
      | Some YNull | None => Ok None
      | Some v => Ok (Some v)
      end
  | _ => Raise AttributeError
  end.

(** [node.items()] *)
Definition yaml_items (node : yaml) : result (list (string * yaml)) :=
  match node with
  | YMap entries _ => Ok entries
  | _ => Raise AttributeError
  end.

(** [get_comment_value(node, *, name, field)] for a mapping [node]. *)
Definition get_comment_value (node : yaml) (name field : string)
  : result (option string) :=
  match node with
  | YMap _ ca =>
      comment <- match Calico.get name ca with
                 | None => Ok None                         (* KeyError, caught *)
                 | Some None => Raise AttributeError       (* None has no value *)
                 | Some (Some v) => Ok (Some (strip (drop 1 v)))
                 end ;;
      match comment with
      | Some comment =>
          let delim := (field ++ ":")%string in
          if String.prefix delim comment
          then Ok (Some (strip (drop (String.length delim) comment)))
          else Ok None
      | None => Ok None
      end
  | _ => Raise AttributeError
  end.

(** [action_types = {i: m for m in ActionType for i in m.value}] *)
Definition action_types : list (string * ActionType) :=
  [("e", EXPECT); ("expect", EXPECT); ("s", SEND); ("send", SEND)].

(** The keyword value of an int or a bool. *)
Definition as_int (v : yaml) : option kwvalue :=
  match v with
  | YInt z => Some (KInt z)
  | YBool b => Some (KBool b)
  | _ => None
  end.

Definition as_bool (v : yaml) : option kwvalue :=
  match v with
  | YBool b => Some (KBool b)
  | _ => None
  end.

(** The [# timeout: N] comment of a key, lines 88-91 and 129-132. *)
Definition timeout_kwargs (node : yaml) (name test_name : string)
  : result (list (string * kwvalue)) :=
  timeout <- get_comment_value node name "timeout" ;;
  match timeout with
  | Some timeout =>
      _ <- assert (isdigit timeout)
             (test_name ++ ": timeout value must be an integer")%string ;;
      n <- int timeout ;;
      Ok [("timeout", KInt n)]
  | None => Ok []
  end.

(** An optional field that must pass an [isinstance] test, stored in
    [kwargs] under [keyword]. *)
Definition field_kwargs (test : yaml) (key keyword : string)
    (accept : yaml -> option kwvalue) (msg : string)
  : result (list (string * kwvalue)) :=
  v <- yaml_get test key ;;
  match v with
  | Some v =>
      match accept v with
      | Some k => Ok [(keyword, k)]
      | None => Raise (AssertionError msg)
      end
  | None => Ok []
  end.

(** Lines 122-135: one step of a script. *)
Definition parse_step (test_name : string) (step : yaml) : result Action.t :=
  items <- yaml_items step ;;
  match items with
  | [] => Raise IndexError
  | (action_type, data) :: _ =>
      match Calico.get action_type action_types with
      | None => Raise (AssertionError (test_name ++ ": unknown action type")%string)
      | Some type_ =>
          match data with
          | YStr data =>
              kwargs <- timeout_kwargs step action_type test_name ;;
              Ok (Action.init type_ data
                    match kwargs with
                    | (_, v) :: _ => Some (int_of v)
                    | [] => no_timeout
                    end)
          | _ => Raise (AssertionError (test_name ++ ": action data must be a string")%string)
          end
      end
  end.

(** [for step in script]: what iterating over the value of [script]
    yields. *)
Definition steps_of (script : yaml) : result (list yaml) :=
  match script with
  | YSeq items => Ok items
  | YStr s => Ok (map (fun c => YStr (String c EmptyString)) (list_ascii_of_string s))
  | YMap entries _ => Ok (map (fun e => YStr (fst e)) entries)
  | _ => Raise TypeError
  end.

Fixpoint add_steps (test_name : string) (case : TestCase.t) (steps : list yaml)
  : result TestCase.t :=
  match steps with
  | [] => Ok case
  | step :: rest =>
      action <- parse_step test_name step ;;
      add_steps test_name (TestCase.add_action case action) rest
  end.

(** Lines 77-135: the test case of one entry of the specification. *)
Definition parse_test (test_name : string) (test : yaml) : result TestCase.t :=
  run <- yaml_get test "run" ;;
  match run with
  | None => Raise (AssertionError (test_name ++ ": no run command")%string)
  | Some (YStr run) =>
      k_ret <- field_kwargs test "return" "returns" as_int
                 (test_name ++ ": return value must be an integer")%string ;;
      k_timeout <- timeout_kwargs test "run" test_name ;;
      k_points <- field_kwargs test "points" "points" as_int
                    (test_name ++ ": points value must be numeric")%string ;;
      k_blocker <- field_kwargs test "blocker" "blocker" as_bool
                     (test_name ++ ": blocker value must be true or false")%string ;;
      k_visible <- field_kwargs test "visible" "visible" as_bool
                     (test_name ++ ": visibility value must be true or false")%string ;;
      case <- TestCase.new test_name run
                (k_ret ++ k_timeout ++ k_points ++ k_blocker ++ k_visible) ;;
      script <- yaml_get test "script" ;;
      match script with
      | None =>
          Ok (TestCase.add_action case
                (Action.init EXPECT "_EOF_" (TestCase.timeout case)))
      | Some script =>
          steps <- steps_of script ;;
          add_steps test_name case steps
      end
  | Some _ => Raise (AssertionError (test_name ++ ": run command must be a string")%string)
  end.

(** [[(n, t) for c in spec for n, t in c.items()]] *)
Fixpoint collect_tests (spec : list yaml) : result (list (string * yaml)) :=
  match spec with
  | [] => Ok []
  | c :: rest =>
      items <- yaml_items c ;;
      tests <- collect_tests rest ;;
      Ok (items ++ tests)
  end.

Fixpoint add_tests (runner : Calico.t) (tests : list (string * yaml)) : result Calico.t :=
  match tests with
  | [] => Ok runner
  | (test_name, test) :: rest =>
      case <- parse_test test_name test ;;
      add_tests (Calico.add_case runner case) rest
  end.

(** Lines 65-139 of [parse_spec]: from the loaded document to the suite. *)
Definition parse_document (spec : yaml) : result Calico.t :=
  match spec with
  | YNull => Raise (AssertionError "no test specification")
  | YSeq spec =>
      tests <- collect_tests spec ;;
      add_tests Calico.init tests
  | _ => Raise (AssertionError "invalid test specification")
  end.

(** [parse_spec(content)]; the message of a [YAMLError] is not modelled. *)
Definition parse_spec (L : Library) (content : string) : result Calico.t :=
  match round_trip_load L content with
  | Raise YAMLError => Raise (AssertionError "YAMLError")
  | Raise e => Raise e
  | Ok spec => parse_document spec
  end.

(** ** Recording a specification: [Clioc] *)

(** [s[:-1]] *)
Fixpoint drop_last (s : string) : string :=
  match s with
  | EmptyString => EmptyString
  | String c s' =>
      match s' with
      | EmptyString => EmptyString
      | String _ _ => String c (drop_last s')
      end
  end.

(** The line boundaries of [str.splitlines] below U+0100: line feed,
    vertical tab, form feed, carriage return, the file, group and record
    separators and next line. *)
Definition is_line_boundary (c : ascii) : bool :=
  let n := nat_of_ascii c in
  ((10 <=? n) && (n <=? 13) || (28 <=? n) && (n <=? 30) || (n =? 133))%nat.

Definition CR : ascii := ascii_of_nat 13.
Definition LF : ascii := ascii_of_nat 10.

(** [s.splitlines(keepends=True)]: a carriage return followed by a line
    feed is one boundary. *)
Fixpoint splitlines (s : string) : list string :=
  match s with
  | EmptyString => []
  | String c s' =>
      if is_line_boundary c then
        match s' with
        | String c' s'' =>
            if Ascii.eqb c CR && Ascii.eqb c' LF
            then String c (String c' EmptyString) :: splitlines s''
            else String c EmptyString :: splitlines s'
        | EmptyString => [String c EmptyString]
        end
      else
        match splitlines s' with
        | [] => [String c EmptyString]
        | line :: lines => String c line :: lines
        end
  end.

Definition backslash : ascii := ascii_of_nat 92.

(** [s.replace("\\ ", " ")]: every backslash that a space follows is
    dropped, from left to right. *)
Fixpoint replace_escaped_spaces (s : string) : string :=
  match s with
  | EmptyString => EmptyString
  | String c s' =>
      match s' with
      | String c' s'' =>
          if Ascii.eqb c backslash && Ascii.eqb c' " "
          then String " " (replace_escaped_spaces s'')
          else String c (replace_escaped_spaces s')
      | EmptyString => String c EmptyString
      end
  end.

(** [c.lower()] for a character below U+0100. *)
Definition lower_char (c : ascii) : ascii :=
  let n := nat_of_ascii c in
  if ((65 <=? n) && (n <=? 90)
      || (192 <=? n) && (n <=? 222) && negb (n =? 215))%nat
  then ascii_of_nat (n + 32)
  else c.

(** [s.lower()] *)
Fixpoint lower (s : string) : string :=
  match s with
  | EmptyString => EmptyString
  | String c s' => String (lower_char c) (lower s')
  end.

Module Clioc.

(** The library calls of the recorder: [re.escape], [bytes.decode("utf8")]
    ([None] when it raises [UnicodeDecodeError]) and [int] of a string
    ([None] when it raises [ValueError]). *)
Record Host : Type := {
  escape : string -> string;
  decode_utf8 : list Byte.byte -> option string;
  to_int : string -> option Z
}.

(** What one run of the reference program brings: the reads for which
    [pty._copy] calls the handler, in order, each the file descriptor and the
    bytes [os.read] returned; the status [os.waitpid] reports; and what the
    operator types at the two prompts. *)
Record round : Type := {
  reads : list (Z * list Byte.byte);
  wait_status : Z;
  points_typed : string;
  continue_typed : string
}.

(** [Clioc.__init__]; the case being recorded is threaded through the
    functions below. *)
Record t : Type := { argv : list string }.

Section Recording.

Context (T : Host) (L : Library).

(** [__read_write_handler(self, fd)], given the bytes read.  The bytes it
    returns, the ones it was given, go to the other end of the terminal. *)
Definition read_write_handler (current : TestCase.t) (fd : Z) (bs : list Byte.byte)
  : result TestCase.t :=
  match decode_utf8 T bs with
  | None => Raise UnicodeDecodeError
  | Some data =>
      if fd =? 0 then
        Ok (TestCase.add_action current
              (Action.init SEND (drop_last data) no_timeout))
      else
        Ok (fold_left
              (fun case line =>
                 let line := replace_escaped_spaces (escape T line) in
                 TestCase.add_action case (Action.init EXPECT line no_timeout))
              (splitlines data) current)
  end.

(** [pty._copy(master_fd, handler, handler)] *)
Fixpoint copy (current : TestCase.t) (todo : list (Z * list Byte.byte))
  : result TestCase.t :=
  match todo with
  | [] => Ok current
  | (fd, bs) :: rest =>
      current <- read_write_handler current fd bs ;;
      copy current rest
  end.

(** [__spawn(self)], on the side of the parent process. *)
Definition spawn (current : TestCase.t) (r : round) : result (TestCase.t * Z) :=
  current <- copy current (reads r) ;;
  Ok (current, Z.shiftr (wait_status r) 8).

(** [__create_test_case(self, case_num)] *)
Definition create_test_case (self : t) (case_num : Z) (r : round)
  : result TestCase.t :=
  let case_name := ("case_" ++ str_int case_num)%string in
  let current :=
    TestCase.mk case_name (join " " (argv self)) [] None (Some 0) None false true in
  ' (current, exit_code) <- spawn current r ;;
  let current :=
    TestCase.add_action current (Action.init EXPECT "_EOF_" no_timeout) in
  match to_int T (points_typed r) with
  | None => Raise ValueError
  | Some points =>
      Ok (TestCase.mk (TestCase.name current) (TestCase.command current)
                      (TestCase.script current) (TestCase.timeout current)
                      (Some exit_code) (Some points)
                      (TestCase.blocker current) (TestCase.visible current))
  end.

(** [input(...).lower() not in ("y", "")] is false. *)
Definition continues (typed : string) : bool :=
  let answer := lower typed in
  String.eqb answer "y" || String.eqb answer "".

(** [__create_test_suite(self)], from the case numbered [case_num] on: the
    loop goes on for as long as the operator asks; [None] when the rounds
    given end before the operator declines. *)
Fixpoint create_test_suite_from (self : t) (calico : Calico.t) (case_num : Z)
    (rounds : list round) : option (result Calico.t) :=
  match rounds with
  | [] => None
  | r :: rest =>
      match create_test_case self case_num r with
      | Raise e => Some (Raise e)
      | Ok case =>
          let calico := Calico.add_case calico case in
          if continues (continue_typed r)
          then create_test_suite_from self calico (case_num + 1) rest
          else Some (Ok calico)
      end
  end.

Definition create_test_suite (self : t) (rounds : list round)
  : option (result Calico.t) :=
  create_test_suite_from self Calico.init 1 rounds.

(** [generate_test_spec(self)] *)
Definition generate_test_spec (self : t) (rounds : list round)
  : option (result string) :=
  match create_test_suite self rounds with
  | None => None
  | Some r => Some (test_suite <- r ;; Ok (Calico_str L test_suite))
  end.

End Recording.

End Clioc.

(** ** Definitions used in the statements *)

(** The trailing action of lines 104-106. *)
Definition EOF_action : Action.t := Action.init EXPECT "_EOF_" no_timeout.

Definition is_expect (a : Action.t) : bool := ActionType_eqb (Action.type_ a) EXPECT.

(** The last action is an [Expect] of the end-of-output sentinel. *)
Definition ends_with_EOF_expect (script : list Action.t) : bool :=
  match last (map Some script) None with
  | Some l => is_expect l && is_EOF (Action.data l)
  | None => false
  end.

(** [pexpect]'s rule for the timeout of [expect]: [-1] stands for the
    timeout the process was spawned with. *)
Definition resolve (self_timeout : Z) (timeout : option Z) : option Z :=
  match timeout with
  | Some t => if t =? -1 then Some self_timeout else Some t
  | None => None
  end.

(** The timeouts in force for the matches of one process, given the calls
    made on it from [pexpect.spawn] on. *)
Fixpoint match_timeouts_from (self_timeout : Z) (calls : list call) : list (option Z) :=
  match calls with
  | [] => []
  | Spawn _ t :: calls' => match_timeouts_from t calls'
  | ExpectCall _ t :: calls' => resolve self_timeout t :: match_timeouts_from self_timeout calls'
  | _ :: calls' => match_timeouts_from self_timeout calls'
  end.

Definition match_timeouts (calls : list call) : list (option Z) :=
  match calls with
  | Spawn _ t :: calls' => match_timeouts_from t calls'
  | _ => []
  end.

(** A timeout is set when it is not the default [-1]. *)
Definition is_set (timeout : option Z) : bool :=
  match timeout with
  | Some t => negb (t =? -1)
  | None => true
  end.

(** The timeout of an [Expect] as the specification words it: the
    action's own, else the case's, else the global default. *)
Definition timeout_by_the_words (a : Action.t) (case : TestCase.t) (g : Z) : option Z :=
  if is_set (Action.timeout a) then Action.timeout a
  else if is_set (TestCase.timeout case) then TestCase.timeout case
  else Some g.

(** The global default in force for a run. *)
Definition global_timeout {D : Type} (W : World D) (g_timeout : option Z) : Z :=
  match g_timeout with
  | Some g => g
  | None => GLOBAL_TIMEOUT W
  end.

Definition declared (case : TestCase.t) : Z :=
  match TestCase.points case with
  | Some p => p
  | None => 0
  end.

(** The suite after a sequence of [add_case] calls. *)
Definition suite_of (cases : list TestCase.t) : Calico.t :=
  fold_left Calico.add_case cases Calico.init.

(** Every case entry of a report is free of errors. *)
Definition all_passed (report : list (string * Calico.entry)) : Prop :=
  forall n r, In (n, Calico.Case r) report -> TestCase.errors r = [].

Definition hidden (n : string) : bool := String.prefix "_" n.

(** Two cases agree on what the round trip is said to preserve. *)
Definition same_case (a b : TestCase.t) : Prop :=
  TestCase.name a = TestCase.name b /\
  TestCase.points a = TestCase.points b /\
  TestCase.blocker a = TestCase.blocker b /\
  TestCase.visible a = TestCase.visible b /\
  TestCase.script a = TestCase.script b.

Definition same_suite (a b : Calico.t) : Prop :=
  Forall2 same_case (Calico.values (Calico.cases a)) (Calico.values (Calico.cases b)).

(** Rendering a suite and parsing the text gives back an equivalent suite. *)
Definition round_trips (L : Library) (s : Calico.t) : Prop :=
  exists s', parse_spec L (Calico_str L s) = Ok s' /\ same_suite s s'.

(** The message [run_script] records for an exception of [expect] that it
    catches. *)
Definition failure_message (e : exn) : option string :=
  match e with
  | PexpectEOF => Some "Expected output not received."
  | PexpectTIMEOUT => Some "Timeout exceeded."
  | _ => None
  end.

(** The loop of [run_script] as a relation:
    [Runs W defs todo h errors script h'] when the loop over [todo], started
    with history [h], ends without raising, with the error list [errors],
    with [script] for the actions and with history [h']. *)
Inductive Runs {D : Type} (W : World D) (defs : option D)
  : list Action.t -> list call -> list string -> list Action.t -> list call -> Prop :=
| Runs_end h h' :
    invoke W h (Close true) = Ok h' ->
    Runs W defs [] h [] [] h'
| Runs_send a a' rest h h1 errors rest' h' :
    substitute W defs a = Ok a' ->
    Action.type_ a' = SEND ->
    invoke W h (SendLine (Action.data a')) = Ok h1 ->
    Runs W defs rest h1 errors rest' h' ->
    Runs W defs (a :: rest) h errors (a' :: rest') h'
| Runs_match a a' rest h after shown errors rest' h' :
    substitute W defs a = Ok a' ->
    Action.type_ a' = EXPECT ->
    respond W (h ++ [ExpectCall (Action.data a') (Action.timeout a')]) = Returns after ->
    received W after = Ok shown ->
    Runs W defs rest (h ++ [ExpectCall (Action.data a') (Action.timeout a')])
         errors rest' h' ->
    Runs W defs (a :: rest) h errors (a' :: rest') h'
| Runs_fail a a' rest h e before shown msg h' :
    substitute W defs a = Ok a' ->
    Action.type_ a' = EXPECT ->
    respond W (h ++ [ExpectCall (Action.data a') (Action.timeout a')]) = Raises e before ->
    failure_message e = Some msg ->
    received W before = Ok shown ->
    invoke W (h ++ [ExpectCall (Action.data a') (Action.timeout a')]) (Close true) = Ok h' ->
    Runs W defs (a :: rest) h [msg] (a' :: rest) h'.

(** The timeouts the [Expect] actions of a script carry, in order. *)
Definition expect_timeouts (script : list Action.t) : list (option Z) :=
  map Action.timeout (filter is_expect script).

(** What [TestCase.run] makes of the outcome of [run_script]. *)
Definition report_of (self : TestCase.t) (o : Outcome.t) : TestCase.report :=
  {| TestCase.errors :=
       if TestCase.status_differs (Outcome.exit_status o) (TestCase.exits self)
       then Outcome.errors o ++ ["Incorrect exit status."]
       else Outcome.errors o;
     TestCase.awarded := None |}.

(** [len(report[test_name]["errors"]) == 0] *)
Definition passed (r : TestCase.report) : bool :=
  (List.length (TestCase.errors r) =? 0)%nat.

(** The report of a case once [Calico.run] has scored it. *)
Definition scored (test : TestCase.t) (r : TestCase.report) : TestCase.report :=
  match TestCase.points test with
  | None => r
  | Some p =>
      {| TestCase.errors := TestCase.errors r;
         TestCase.awarded := Some (if passed r then p else 0) |}
  end.

(** The points declared for a name of a suite. *)
Definition points_for (cases : list (string * TestCase.t)) (n : string) : Z :=
  match Calico.get n cases with
  | Some c => declared c
  | None => 0
  end.

Definition sum (l : list Z) : Z := fold_right Z.add 0 l.

(** ** Concrete worlds and inputs *)

Definition has_percent (s : string) : bool :=
  negb (all_chars (fun c => negb (Ascii.eqb c "%"%char)) s).

(** [s % defs] for a format string without a per-cent sign: the string
    itself for a dict, a [TypeError] for an object that is not a mapping.
    The worlds below are used on such strings only. *)
Definition percent_plain {D : Type} (s : string) (defs : option D) : result string :=
  match defs with
  | None => if has_percent s then Raise ValueError else Ok s
  | Some _ => Raise TypeError
  end.

(** [bs.decode()] for ASCII bytes, and for input with a byte that is at
    least 0x80, used below only with 0xFF, which no UTF-8 text contains. *)
Definition decode_plain (bs : list Byte.byte) : option string :=
  if forallb (fun b => (Byte.to_nat b <? 128)%nat) bs
  then Some (string_of_list_ascii (map ascii_of_byte bs))
  else None.

Definition bytes_of (s : string) : list Byte.byte :=
  map byte_of_ascii (list_ascii_of_string s).

(** A child that prints what is expected of it, closes its output when the
    end of output is awaited and exits with status 0. *)
Definition obliging {D : Type} : World D :=
  {| GLOBAL_TIMEOUT := 2;
     SUPPORTS_JAIL := true;
     getcwd := "/tmp";
     percent := percent_plain;
     decode := decode_plain;
     respond := fun h =>
       match last (map Some h) None with
       | Some (ExpectCall (Text s) _) => Returns (Bytes (bytes_of s))
       | Some (ExpectCall EOF _) => Returns EOFClass
       | _ => Returns (Bytes [])
       end;
     status := fun _ => (Some 0, None) |}.

(** A child that prints nothing and never ends: every [expect] times out,
    and the forced close kills it. *)
Definition hanging {D : Type} : World D :=
  {| GLOBAL_TIMEOUT := 2;
     SUPPORTS_JAIL := false;
     getcwd := "/tmp";
     percent := percent_plain;
     decode := decode_plain;
     respond := fun h =>
       match last (map Some h) None with
       | Some (ExpectCall _ _) => Raises PexpectTIMEOUT (Bytes [])
       | _ => Returns (Bytes [])
       end;
     status := fun _ => (None, Some 9) |}.

(** A child that writes the single byte 0xFF, closes its output and exits
    with status 0, as [printf '\377'] does. *)
Definition garbling {D : Type} : World D :=
  {| GLOBAL_TIMEOUT := 2;
     SUPPORTS_JAIL := false;
     getcwd := "/tmp";
     percent := percent_plain;
     decode := decode_plain;
     respond := fun h =>
       match last (map Some h) None with
       | Some (ExpectCall (Text _) _) => Raises PexpectEOF (Bytes [Byte.xff])
       | Some (ExpectCall EOF _) => Returns EOFClass
       | _ => Returns (Bytes [])
       end;
     status := fun _ => (Some 0, None) |}.

(** A child that prints nothing, then closes its output and exits with
    status 0, as [true] does. *)
Definition silent {D : Type} : World D :=
  {| GLOBAL_TIMEOUT := 2;
     SUPPORTS_JAIL := false;
     getcwd := "/tmp";
     percent := percent_plain;
     decode := decode_plain;
     respond := fun h =>
       match last (map Some h) None with
       | Some (ExpectCall (Text _) _) => Raises PexpectEOF (Bytes [])
       | Some (ExpectCall EOF _) => Returns EOFClass
       | _ => Returns (Bytes [])
       end;
     status := fun _ => (Some 0, None) |}.

Definition expect_hello : Action.t := Action.init EXPECT "hello" no_timeout.
Definition send_hello : Action.t := Action.init SEND "hello" no_timeout.

(** A case with a timeout of its own, whose only action has none. *)
Definition timed_case : TestCase.t :=
  TestCase.mk "t" "prog" [expect_hello] (Some 5) (Some 0) None false true.

(** A case without script, and one whose script is a single [Send]. *)
Definition bare_case : TestCase.t := TestCase.init "case_1" "./prog".
Definition sending_case : TestCase.t :=
  TestCase.add_action (TestCase.init "s" "cat") send_hello.

(** The state in which [Calico.run] enters its loop. *)
Definition start (self : Calico.t) (h : list call) : Calico.state :=
  {| Calico.report := []; Calico.earned_points := 0;
     Calico.suite := self; Calico.history := h |}.

(** The loop of [Calico.run] gets through [names] without taking the
    [break]: [Passes W g names st st'] when the turns for [names], started
    in [st], all return, none of them stops the loop, and they end in
    [st']. *)
Inductive Passes (W : World TestCase.t) (g_timeout : option Z)
  : list string -> Calico.state -> Calico.state -> Prop :=
| Passes_nil st : Passes W g_timeout [] st st
| Passes_cons n names st st1 st2 :
    Calico.run_test W g_timeout n st = Ok (st1, false) ->
    Passes W g_timeout names st1 st2 ->
    Passes W g_timeout (n :: names) st st2.

(** A suite of a blocker followed by another case. *)
Definition blocking_case : TestCase.t :=
  TestCase.mk "a" "first" [expect_hello] no_timeout (Some 0) (Some 3) true true.
Definition following_case : TestCase.t :=
  TestCase.mk "b" "second" [expect_hello] no_timeout (Some 0) (Some 2) false true.
Definition blocked_suite : Calico.t := suite_of [blocking_case; following_case].

(** A suite with a case that the default run skips. *)
Definition hidden_case : TestCase.t :=
  TestCase.mk "_setup" "prepare" [] no_timeout (Some 0) (Some 2) false true.
Definition scoring_case : TestCase.t :=
  TestCase.mk "a" "prog" [expect_hello] no_timeout (Some 0) (Some 1) false true.
Definition partly_hidden_suite : Calico.t := suite_of [hidden_case; scoring_case].
Definition plain_suite : Calico.t := suite_of [scoring_case; following_case].

(** What the text of a case is made from. *)
Definition rendered (c : TestCase.t)
  : string * string * list Action.t * option Z * option Z :=
  (TestCase.name c, TestCase.command c, TestCase.script c,
   TestCase.exits c, TestCase.points c).

(** The blocker of [blocked_suite] without its flag. *)
Definition unblocking_case : TestCase.t :=
  TestCase.mk "a" "first" [expect_hello] no_timeout (Some 0) (Some 3) false true.

(** The document of
<<
- case_1:
    run: ./prog
    return: 2
>>
    and the same without its [return] line. *)
Definition returning_spec : yaml :=
  YSeq [YMap [("case_1", YMap [("run", YStr "./prog"); ("return", YInt 2)] [])] []].
Definition plain_spec : yaml :=
  YSeq [YMap [("case_1", YMap [("run", YStr "./prog")] [])] []].

(** ** Definitions for the further properties *)

(** The call that executes an action: [process.expect(action.data,
    timeout=action.timeout)] for an [Expect], [process.sendline(action.data)]
    for a [Send]. *)
Definition call_of (a : Action.t) : call :=
  match Action.type_ a with
  | EXPECT => ExpectCall (Action.data a) (Action.timeout a)
  | SEND => SendLine (Action.data a)
  end.

Definition is_spawn (c : call) : bool :=
  match c with
  | Spawn _ _ => true
  | _ => false
  end.

(** The points a report entry awards. *)
Definition awarded_by (e : string * Calico.entry) : Z :=
  match snd e with
  | Calico.Case r =>
      match TestCase.awarded r with
      | Some p => p
      | None => 0
      end
  | Calico.Earned _ => 0
  end.

(** The fields of a case in a document, as [parse_spec] accepts them:
    the points (an int, or a bool, which is an int), a flag with its default,
    and the timeout of the comment on a key. *)
Definition points_field (test : yaml) : option Z :=
  match yaml_get test "points" with
  | Ok (Some v) => option_map int_of (as_int v)
  | _ => None
  end.

Definition flag_field (test : yaml) (key : string) (default : bool) : bool :=
  match yaml_get test key with
  | Ok (Some (YBool b)) => b
  | _ => default
  end.

Definition timeout_field (node : yaml) (name : string) : option Z :=
  match get_comment_value node name "timeout" with
  | Ok (Some s) =>
      match int s with
      | Ok z => Some z
      | Raise _ => no_timeout
      end
  | _ => no_timeout
  end.

(** The step of a script that holds an action: the mapping from the name
    of its kind to its data, with the comment [Action.__str__] writes for its
    timeout, up to the end of the line, attached to that key. *)
Definition timeout_comment (timeout : option Z) : string :=
  match timeout with
  | Some (-1) => ""
  | _ => ("# timeout: " ++ str_optional timeout)%string
  end.

Definition step_node (kind data : string) (timeout : option Z) : yaml :=
  YMap [(kind, YStr data)]
       match timeout with
       | Some (-1) => []
       | _ => [(kind, Some (timeout_comment timeout ++ nl)%string)]
       end.

(** A case of a document with every optional field but [return], and with
    a script of two steps:
<<
- case_1:
    run: ./prog  # timeout: 5
    points: 10
    blocker: true
    visible: false
    script:
      - expect: "Name: "  # timeout: 3
      - send: "calico"
>>
*)
Definition full_test : yaml :=
  YMap [("run", YStr "./prog"); ("points", YInt 10); ("blocker", YBool true);
        ("visible", YBool false);
        ("script", YSeq [YMap [("expect", YStr "Name: ")]
                              [("expect", Some ("# timeout: 3" ++ nl)%string)];
                         YMap [("send", YStr "calico")] []])]
       [("run", Some ("# timeout: 5" ++ nl)%string)].

Definition full_case : TestCase.t :=
  TestCase.mk "case_1" "./prog"
              [Action.init EXPECT "Name: " (Some 3); Action.init SEND "calico" no_timeout]
              (Some 5) (Some 0) (Some 10) true false.

(** A library whose loader gives the document [spec] for the text it is
    handed; the other functions leave their argument as it is. *)
Definition loading (spec : yaml) : Library :=
  {| dumps := fun s => s;
     indent := fun s _ => s;
     dedent := fun s => s;
     round_trip_load := fun _ => Ok spec |}.

(** The document of two entries, [a] with 1 point and [b] with none:
<<
- a:
    run: first
    points: 1
- b:
    run: second
>>
*)
Definition two_entries : yaml :=
  YSeq [YMap [("a", YMap [("run", YStr "first"); ("points", YInt 1)] [])] [];
        YMap [("b", YMap [("run", YStr "second")] [])] []].

(** ** Definitions for the properties of the recorder *)

Definition is_send (a : Action.t) : bool := ActionType_eqb (Action.type_ a) SEND.

(** A round that the recorder gets through: every read decodes and the
    points typed are an int. *)
Definition recordable (T : Clioc.Host) (r : Clioc.round) : Prop :=
  Forall (fun rd => Clioc.decode_utf8 T (snd rd) <> None) (Clioc.reads r)
  /\ Clioc.to_int T (Clioc.points_typed r) <> None.

(** A host whose [re.escape] leaves its argument as it is (as it does for
    letters and digits), that decodes ASCII bytes and reads an int from
    decimal digits. *)
Definition plain_host : Clioc.Host :=
  {| Clioc.escape := fun s => s;
     Clioc.decode_utf8 := decode_plain;
     Clioc.to_int := fun s =>
       if isdigit s then
         match int s with
         | Ok z => Some z
         | Raise _ => None
         end
       else None |}.

(** A run that prints a prompt, reads a name from the operator, greets in
    two lines and exits with status 3; the operator gives it 5 points. *)
Definition greeting_round (continue_typed : string) : Clioc.round :=
  {| Clioc.reads := [(3, bytes_of "Name");
                     (0, bytes_of ("calico" ++ nl));
                     (3, bytes_of ("Hello" ++ nl ++ "calico" ++ nl))];
     Clioc.wait_status := 768;
     Clioc.points_typed := "5";
     Clioc.continue_typed := continue_typed |}.

Definition reference : Clioc.t := {| Clioc.argv := ["./prog"; "-v"] |}.

(** [enumerate(l, n)] *)
Fixpoint numbered {A : Type} (n : Z) (l : list A) : list (Z * A) :=
  match l with
  | [] => []
  | x :: l' => (n, x) :: numbered (n + 1) l'
  end.

Definition case_name (nr : Z * Clioc.round) : string :=
  ("case_" ++ str_int (fst nr))%string.

Definition goes_on (r : Clioc.round) : Prop :=
  Clioc.continues (Clioc.continue_typed r) = true.

(** A document whose second test has no [run] field:
<<
- a:
    run: first
- b:
    points: 1
>>
*)
Definition refused_second_items : list yaml :=
  [YMap [("a", YMap [("run", YStr "first")] [])] [];
   YMap [("b", YMap [("points", YInt 1)] [])] []].

Definition refused_second : yaml := YSeq refused_second_items.

(** A process on which [run_script] can rely: [expect] raises nothing but
    [pexpect.EOF] and [pexpect.TIMEOUT], what the process has written can be
    shown in the debug message, and no other call raises. *)
Definition well_behaved {D : Type} (W : World D) : Prop :=
  forall h c,
    match c, respond W (h ++ [c]) with
    | ExpectCall _ _, Returns out => is_ok (received W out) = true
    | ExpectCall _ _, Raises e out =>
        (e = PexpectEOF \/ e = PexpectTIMEOUT) /\ is_ok (received W out) = true
    | _, Returns _ => True
    | _, Raises _ _ => False
    end.

(** * Properties *)

(** ** The trailing end-of-output action *)

Lemma last_Some_snoc {A : Type} (l : list A) (a : A) :
  last (map Some (l ++ [a])) None = Some a.
Proof.
  rewrite map_app. simpl. apply last_last.
Qed.

Lemma needs_EOF_snoc (init : list Action.t) (l : Action.t) :
  needs_EOF (init ++ [l])
  = negb (is_expect l) && differs_from_EOF_literal (Action.data l).
Proof.
  unfold needs_EOF. rewrite last_Some_snoc. reflexivity.
Qed.

Lemma with_trailing_EOF_idem (script : list Action.t) :
  with_trailing_EOF (with_trailing_EOF script) = with_trailing_EOF script.
Proof.
  unfold with_trailing_EOF.
  destruct (needs_EOF script) eqn:E.
  - rewrite needs_EOF_snoc. reflexivity.
  - rewrite E. reflexivity.
Qed.

Lemma init_data_differs (ty : ActionType) (s : string) (t : option Z) :
  differs_from_EOF_literal (Action.data (Action.init ty s t)) = true.
Proof.
  unfold Action.init. simpl.
  destruct (String.eqb s "_EOF_") eqn:E; simpl; [reflexivity | now rewrite E].
Qed.

(** C1, as the code has it: an end-of-output [Expect] with the default
    timeout is appended, before any action is executed, to the empty script
    and to a script whose last action is a [Send] (with data other than the
    literal string [_EOF_], which the constructor never leaves in an
    action); a script whose last action is an [Expect], of the sentinel or of
    a text, is left as it is; and running a script gives the same outcome as
    running the script with the trailing action written out, whatever the
    process does. *)
Theorem C1_trailing_EOF :
  forall (D : Type) (W : World D) (command : string) (script init : list Action.t)
         (d : payload) (s : string) (t : option Z) (defs : option D)
         (g_timeout : option Z) (h : list call),
    with_trailing_EOF [] = [EOF_action]
    /\ with_trailing_EOF (init ++ [Action.init SEND s t])
       = init ++ [Action.init SEND s t; EOF_action]
    /\ with_trailing_EOF (init ++ [Action.mk SEND d t])
       = (if differs_from_EOF_literal d
          then init ++ [Action.mk SEND d t; EOF_action]
          else init ++ [Action.mk SEND d t])
    /\ with_trailing_EOF (init ++ [Action.mk EXPECT d t]) = init ++ [Action.mk EXPECT d t]
    /\ run_script W command script defs g_timeout h
       = run_script W command (with_trailing_EOF script) defs g_timeout h.
Proof.
  intros. repeat split.
  - unfold with_trailing_EOF. rewrite needs_EOF_snoc, init_data_differs.
    simpl. now rewrite <- app_assoc.
  - unfold with_trailing_EOF. rewrite needs_EOF_snoc. simpl.
    destruct (differs_from_EOF_literal d); [now rewrite <- app_assoc | reflexivity].
  - unfold with_trailing_EOF. now rewrite needs_EOF_snoc.
  - unfold run_script. now rewrite with_trailing_EOF_idem.
Qed.

(** C1 fails as stated: a script whose last action is an [Expect] of a
    text does not end in an end-of-output [Expect], and nothing is appended
    to it; the run makes one [expect] call, for the text, and closes. *)
Lemma C1_counterexample :
  ends_with_EOF_expect [expect_hello] = false
  /\ with_trailing_EOF [expect_hello] = [expect_hello]
  /\ run_script (@obliging unit) "prog" [expect_hello] None None []
     = Ok {| Outcome.exit_status := Some 0;
             Outcome.signal_status := None;
             Outcome.errors := [];
             Outcome.script := [expect_hello];
             Outcome.history :=
               [Spawn "prog" 2; SetEcho false;
                ExpectCall (Text "hello") (Some (-1)); Close true] |}.
Proof.
  repeat split; vm_compute; reflexivity.
Qed.

(** ** The loop of [run_script] *)

Section Loop.

Context {D : Type} (W : World D) (defs : option D).

Lemma invoke_Ok (h h' : list call) (c : call) :
  invoke W h c = Ok h' -> h' = h ++ [c].
Proof.
  unfold invoke. destruct (respond W (h ++ [c])); congruence.
Qed.

Lemma substitute_keeps (a a' : Action.t) :
  substitute W defs a = Ok a' ->
  Action.type_ a' = Action.type_ a /\ Action.timeout a' = Action.timeout a.
Proof.
  unfold substitute. destruct (Action.data a).
  - destruct (percent W s defs); simpl; [|discriminate].
    intros H. injection H as <-. split; reflexivity.
  - intros H. injection H as <-. split; reflexivity.
Qed.

(** The function and the relation agree. *)
Lemma run_actions_Runs (todo : list Action.t) :
  forall h errors script h',
    run_actions W defs todo h = Ok (errors, script, h') ->
    Runs W defs todo h errors script h'.
Proof.
  induction todo as [|a rest IH]; intros h errors script h' H; simpl in H.
  - destruct (invoke W h (Close true)) as [h1|] eqn:Hc; simpl in H; [|discriminate].
    injection H as <- <- <-. now constructor.
  - destruct (substitute W defs a) as [a'|] eqn:Hs; simpl in H; [|discriminate].
    destruct (Action.type_ a') eqn:Ht.
    + destruct (respond W _) as [after|e before] eqn:Hr.
      * destruct (received W after) as [shown|] eqn:Hd; simpl in H; [|discriminate].
        destruct (run_actions W defs rest _) as [[[errs1 rest1] h1]|] eqn:Hrec;
          simpl in H; [|discriminate].
        injection H as <- <- <-.
        eapply Runs_match; eauto.
      * destruct e; try discriminate;
          (destruct (received W before) as [shown|] eqn:Hd; simpl in H; [|discriminate];
           destruct (invoke W _ (Close true)) as [h2|] eqn:Hc; simpl in H; [|discriminate];
           injection H as <- <- <-;
           eapply Runs_fail; eauto; reflexivity).
    + destruct (invoke W h _) as [h1|] eqn:Hi; simpl in H; [|discriminate].
      destruct (run_actions W defs rest h1) as [[[errs1 rest1] h2]|] eqn:Hrec;
        simpl in H; [|discriminate].
      injection H as <- <- <-.
      eapply Runs_send; eauto.
Qed.

Lemma Runs_run_actions (todo : list Action.t) (h : list call) (errors : list string)
    (script : list Action.t) (h' : list call) :
  Runs W defs todo h errors script h' ->
  run_actions W defs todo h = Ok (errors, script, h').
Proof.
  induction 1; simpl.
  - now rewrite H.
  - rewrite H. simpl. rewrite H0, H1. simpl. now rewrite IHRuns.
  - rewrite H. simpl. rewrite H0, H1, H2. simpl. now rewrite IHRuns.
  - rewrite H. simpl. rewrite H0, H1.
    destruct e; try discriminate; rewrite H3; simpl; rewrite H4; simpl;
      injection H2 as <-; reflexivity.
Qed.

(** The error list is empty or holds one message. *)
Lemma Runs_errors todo h errors script h' :
  Runs W defs todo h errors script h' ->
  errors = [] \/ errors = ["Expected output not received."]
  \/ errors = ["Timeout exceeded."].
Proof.
  induction 1; auto.
  destruct e; try discriminate; injection H2 as <-; auto.
Qed.

(** A run keeps the actions of the script in place, with their kind and
    their timeout. *)
Lemma Runs_shape todo h errors script h' :
  Runs W defs todo h errors script h' ->
  map Action.type_ script = map Action.type_ todo
  /\ map Action.timeout script = map Action.timeout todo.
Proof.
  induction 1; simpl.
  - split; reflexivity.
  - destruct (substitute_keeps _ _ H) as [-> ->]. destruct IHRuns as [-> ->].
    split; reflexivity.
  - destruct (substitute_keeps _ _ H) as [-> ->]. destruct IHRuns as [-> ->].
    split; reflexivity.
  - destruct (substitute_keeps _ _ H) as [-> ->]. split; reflexivity.
Qed.

(** Where substitution changes nothing, a run leaves the script as it
    was. *)
Lemma Runs_fixed todo h errors script h' :
  Runs W defs todo h errors script h' ->
  (forall a, In a todo -> substitute W defs a = Ok a) ->
  script = todo.
Proof.
  induction 1; intros Hfix.
  - reflexivity.
  - rewrite (Hfix a (or_introl eq_refl)) in H. injection H as <-.
    f_equal. apply IHRuns. intros b Hb. apply Hfix. now right.
  - rewrite (Hfix a (or_introl eq_refl)) in H. injection H as <-.
    f_equal. apply IHRuns. intros b Hb. apply Hfix. now right.
  - rewrite (Hfix a (or_introl eq_refl)) in H. injection H as <-. reflexivity.
Qed.

(** Each action of the script after a run is the action it was, or what
    substitution makes of it. *)
Lemma Runs_data todo h errors script h' :
  Runs W defs todo h errors script h' ->
  Forall2 (fun a a' => a' = a \/ substitute W defs a = Ok a') todo script.
Proof.
  induction 1.
  - constructor.
  - constructor; [now right | assumption].
  - constructor; [now right | assumption].
  - constructor; [now right|].
    clear. induction rest; constructor; auto.
Qed.

(** The calls of a run extend the history; the [expect] calls among them
    carry, in order, the timeouts of the [Expect] actions of the script,
    of all of them when no error is recorded. *)
Lemma Runs_timeouts todo h errors script h' :
  Runs W defs todo h errors script h' ->
  exists calls n,
    h' = h ++ calls
    /\ (forall g, match_timeouts_from g calls
                  = firstn n (map (resolve g) (expect_timeouts todo)))
    /\ (errors = [] -> n = List.length (expect_timeouts todo)).
Proof.
  induction 1.
  - apply invoke_Ok in H. exists [Close true], 0%nat. repeat split; auto.
  - apply invoke_Ok in H1. subst h1.
    destruct IHRuns as (calls & n & -> & Ht & Hn).
    destruct (substitute_keeps _ _ H) as [Hty Hto].
    exists (SendLine (Action.data a') :: calls), n.
    unfold expect_timeouts, is_expect. simpl. rewrite <- Hty, H0. simpl.
    repeat split; auto. now rewrite <- app_assoc.
  - destruct IHRuns as (calls & n & -> & Ht & Hn).
    destruct (substitute_keeps _ _ H) as [Hty Hto].
    exists (ExpectCall (Action.data a') (Action.timeout a') :: calls), (S n).
    unfold expect_timeouts, is_expect. simpl. rewrite <- Hty, H0. simpl.
    repeat split.
    + now rewrite <- app_assoc.
    + intros g. rewrite Ht, Hto. reflexivity.
    + intros E. f_equal. now apply Hn.
  - apply invoke_Ok in H4. subst h'.
    destruct (substitute_keeps _ _ H) as [Hty Hto].
    exists [ExpectCall (Action.data a') (Action.timeout a'); Close true], 1%nat.
    unfold expect_timeouts, is_expect. simpl. rewrite <- Hty, H0. simpl.
    repeat split.
    + now rewrite <- app_assoc.
    + intros g. now rewrite Hto.
    + discriminate.
Qed.

End Loop.

(** ** [run_script] and [TestCase.run] *)

Section CaseRun.

Context {D : Type} (W : World D).

Lemma run_script_Ok command script defs g_timeout h o :
  run_script W command script defs g_timeout h = Ok o ->
  Runs W defs (with_trailing_EOF script)
       (h ++ [Spawn command (global_timeout W g_timeout); SetEcho false])
       (Outcome.errors o) (Outcome.script o) (Outcome.history o)
  /\ Outcome.exit_status o = fst (status W (Outcome.history o))
  /\ Outcome.signal_status o = snd (status W (Outcome.history o)).
Proof.
  unfold run_script. fold (global_timeout W g_timeout). intros H.
  destruct (invoke W h _) as [h1|] eqn:H1; simpl in H; [|discriminate].
  destruct (invoke W h1 _) as [h2|] eqn:H2; simpl in H; [|discriminate].
  destruct (run_actions W defs _ h2) as [[[errs s'] h3]|] eqn:H3;
    simpl in H; [|discriminate].
  injection H as <-. simpl.
  apply invoke_Ok in H1, H2. subst h1 h2.
  rewrite <- app_assoc in H3. simpl in H3.
  split; [now apply run_actions_Runs | split; reflexivity].
Qed.

Lemma TestCase_run_eq self defs jailed g_timeout h :
  TestCase.run W self defs jailed g_timeout h
  = (o <- run_script W (TestCase.command self) (TestCase.script self)
            defs g_timeout h ;;
     Ok (report_of self o, TestCase.set_script self (Outcome.script o),
         Outcome.history o)).
Proof.
  unfold TestCase.run, report_of.
  destruct (run_script W _ _ defs g_timeout h) as [o|]; simpl; [|reflexivity].
  destruct (TestCase.status_differs _ _); reflexivity.
Qed.

Lemma TestCase_run_Ok self defs jailed g_timeout h r self' h' :
  TestCase.run W self defs jailed g_timeout h = Ok (r, self', h') ->
  exists o,
    run_script W (TestCase.command self) (TestCase.script self) defs g_timeout h = Ok o
    /\ r = report_of self o
    /\ self' = TestCase.set_script self (Outcome.script o)
    /\ h' = Outcome.history o.
Proof.
  rewrite TestCase_run_eq.
  destruct (run_script W _ _ defs g_timeout h) as [o|]; simpl; [|discriminate].
  intros H. injection H as <- <- <-. exists o. auto.
Qed.

Lemma status_differs_iff (a b : option Z) :
  TestCase.status_differs a b = true <-> a <> b.
Proof.
  destruct a as [x|], b as [y|]; simpl; split; try congruence; try discriminate.
  - rewrite negb_true_iff, Z.eqb_neq. congruence.
  - intros H. rewrite negb_true_iff, Z.eqb_neq. congruence.
Qed.

End CaseRun.

(** C2, as the code has it: the timeout in force for the match of an
    [Expect] action is the action's own timeout when it is not [-1], and
    otherwise the global default of the run ([g_timeout], or
    [GLOBAL_TIMEOUT] when that is absent); the timeout of the enclosing case
    plays no part.  The [expect] calls of a run that returns carry, in order,
    the timeouts of the [Expect] actions of the script (with its trailing
    action), of all of them when the report has no error. *)
Theorem C2_expect_timeout :
  forall (D : Type) (W : World D) (self : TestCase.t) (defs : option D)
         (jailed : bool) (g_timeout : option Z) (h : list call)
         (r : TestCase.report) (self' : TestCase.t) (h' : list call),
    TestCase.run W self defs jailed g_timeout h = Ok (r, self', h') ->
    exists calls n,
      h' = h ++ calls
      /\ match_timeouts calls
         = firstn n (map (resolve (global_timeout W g_timeout))
                         (expect_timeouts (with_trailing_EOF (TestCase.script self))))
      /\ (TestCase.errors r = [] ->
          n = List.length (expect_timeouts (with_trailing_EOF (TestCase.script self)))).
Proof.
  intros D W self defs jailed g_timeout h r self' h' H.
  apply TestCase_run_Ok in H. destruct H as (o & Ho & -> & -> & ->).
  apply run_script_Ok in Ho. destruct Ho as (HR & _ & _).
  apply Runs_timeouts in HR. destruct HR as (calls & n & Hh & Ht & Hn).
  exists (Spawn (TestCase.command self) (global_timeout W g_timeout)
            :: SetEcho false :: calls), n.
  repeat split.
  - rewrite Hh, <- app_assoc. reflexivity.
  - simpl. apply Ht.
  - intros E. apply Hn. unfold report_of in E. simpl in E.
    destruct (TestCase.status_differs _ _); [|assumption].
    destruct (Outcome.errors o); discriminate.
Qed.

(** A run to which C2 applies: the case [timed_case] with a child that
    prints what is expected. *)
Lemma C2_witness :
  TestCase.run (@obliging unit) timed_case None false None []
  = Ok ({| TestCase.errors := []; TestCase.awarded := None |}, timed_case,
        [Spawn "prog" 2; SetEcho false; ExpectCall (Text "hello") (Some (-1));
         Close true])
  /\ exists calls n,
      [Spawn "prog" 2; SetEcho false; ExpectCall (Text "hello") (Some (-1)); Close true]
      = [] ++ calls
      /\ match_timeouts calls
         = firstn n (map (resolve (global_timeout (@obliging unit) None))
                         (expect_timeouts (with_trailing_EOF (TestCase.script timed_case))))
      /\ (TestCase.errors {| TestCase.errors := []; TestCase.awarded := None |} = [] ->
          n = List.length (expect_timeouts (with_trailing_EOF (TestCase.script timed_case)))).
Proof.
  split.
  - vm_compute. reflexivity.
  - apply (C2_expect_timeout unit obliging timed_case None false None []
             {| TestCase.errors := []; TestCase.awarded := None |} timed_case).
    vm_compute. reflexivity.
Defined.

(** C2 fails as stated: a case with timeout 5 whose [Expect] action has no
    timeout of its own, run with the global default 2, is matched with the
    timeout 2, where the words of the claim give 5. *)
Lemma C2_counterexample :
  TestCase.timeout timed_case = Some 5
  /\ map (fun a => timeout_by_the_words a timed_case (GLOBAL_TIMEOUT (@obliging unit)))
         (filter is_expect (TestCase.script timed_case))
     = [Some 5]
  /\ exists r self' h',
      TestCase.run (@obliging unit) timed_case None false None [] = Ok (r, self', h')
      /\ match_timeouts h' = [Some 2].
Proof.
  split; [reflexivity | split; [reflexivity |]].
  eexists _, _, _. split; vm_compute; reflexivity.
Qed.

(** ** Failures of [expect] *)

(** When [expect] raises [EOF] or [TIMEOUT], the bytes received so far can
    be shown and the forced close returns, the loop ends there: the one
    message for that exception is the error list, the session is closed with
    [force=True] right after the call, the actions that follow are neither
    substituted nor run, and the loop returns. *)
Lemma expect_failure_is_data :
  forall (D : Type) (W : World D) (defs : option D) (a a' : Action.t)
         (rest : list Action.t) (h : list call) (e : exn) (before after : output)
         (shown msg : string),
    substitute W defs a = Ok a' ->
    Action.type_ a' = EXPECT ->
    respond W (h ++ [ExpectCall (Action.data a') (Action.timeout a')]) = Raises e before ->
    failure_message e = Some msg ->
    received W before = Ok shown ->
    respond W ((h ++ [ExpectCall (Action.data a') (Action.timeout a')]) ++ [Close true])
    = Returns after ->
    run_actions W defs (a :: rest) h
    = Ok ([msg], a' :: rest,
          (h ++ [ExpectCall (Action.data a') (Action.timeout a')]) ++ [Close true]).
Proof.
  intros D W defs a a' rest h e before after shown msg Hs Ht Hr Hm Hd Hc.
  apply Runs_run_actions. eapply Runs_fail; eauto.
  unfold invoke. now rewrite Hc.
Qed.

(** When the bytes received cannot be decoded, the same failure leaves the
    loop as a [UnicodeDecodeError]: no error is recorded and the session is
    not closed. *)
Lemma expect_failure_undecodable :
  forall (D : Type) (W : World D) (defs : option D) (a a' : Action.t)
         (rest : list Action.t) (h : list call) (e : exn) (bs : list Byte.byte)
         (msg : string),
    substitute W defs a = Ok a' ->
    Action.type_ a' = EXPECT ->
    respond W (h ++ [ExpectCall (Action.data a') (Action.timeout a')])
    = Raises e (Bytes bs) ->
    failure_message e = Some msg ->
    contains dot_EOF bs = false ->
    decode W bs = None ->
    run_actions W defs (a :: rest) h = Raise UnicodeDecodeError.
Proof.
  intros D W defs a a' rest h e bs msg Hs Ht Hr Hm Hc Hd.
  simpl. rewrite Hs. simpl. rewrite Ht, Hr.
  destruct e; try discriminate; unfold received; rewrite Hc, Hd; reflexivity.
Qed.

(** C4 at the failing input: the script is one [Expect] of a text, the
    child writes the byte 0xFF and closes its output.  [expect] raises [EOF];
    the handler decodes the bytes received for its debug message before it
    closes the session and records the error, and [run_script] raises
    [UnicodeDecodeError]. *)
Theorem C4_undecodable_output :
  run_script (@garbling unit) "printf '\377'" [Action.init EXPECT "ok" no_timeout]
             None None []
  = Raise UnicodeDecodeError.
Proof.
  vm_compute. reflexivity.
Qed.

(** ** The exit status *)

(** C5: when [run_script] returns, [TestCase.run] returns a report whose
    error list is the error list of the script followed by
    ["Incorrect exit status."] if the exit status differs from the expected
    one of the case, and the error list of the script alone if they are
    equal; a case is created expecting the exit status 0. *)
Theorem C5_exit_status :
  forall (D : Type) (W : World D) (self : TestCase.t) (defs : option D)
         (jailed : bool) (g_timeout : option Z) (h : list call) (o : Outcome.t),
    run_script W (TestCase.command self) (TestCase.script self) defs g_timeout h = Ok o ->
    (exists r self' h',
        TestCase.run W self defs jailed g_timeout h = Ok (r, self', h')
        /\ (Outcome.exit_status o <> TestCase.exits self ->
            TestCase.errors r = Outcome.errors o ++ ["Incorrect exit status."])
        /\ (Outcome.exit_status o = TestCase.exits self ->
            TestCase.errors r = Outcome.errors o))
    /\ forall name command, TestCase.exits (TestCase.init name command) = Some 0.
Proof.
  intros D W self defs jailed g_timeout h o H.
  split; [|reflexivity].
  rewrite TestCase_run_eq, H. simpl.
  eexists _, _, _. split; [reflexivity|].
  unfold report_of. simpl.
  destruct (TestCase.status_differs _ _) eqn:E.
  - split; [reflexivity|]. intros Heq.
    apply status_differs_iff in E. contradiction.
  - split; [|reflexivity]. intros Hne.
    apply status_differs_iff in Hne. congruence.
Qed.

(** A run to which C5 applies: every [expect] times out and the child is
    killed, so the exit status is [None] where 0 is expected. *)
Lemma C5_witness :
  run_script (@hanging unit) "prog" [expect_hello] None None []
  = Ok {| Outcome.exit_status := None;
          Outcome.signal_status := Some 9;
          Outcome.errors := ["Timeout exceeded."];
          Outcome.script := [expect_hello];
          Outcome.history :=
            [Spawn "prog" 2; SetEcho false;
             ExpectCall (Text "hello") (Some (-1)); Close true] |}
  /\ exists r self' h',
      TestCase.run (@hanging unit) timed_case None false None [] = Ok (r, self', h')
      /\ TestCase.errors r = ["Timeout exceeded."; "Incorrect exit status."].
Proof.
  assert (H : run_script (@hanging unit) (TestCase.command timed_case)
                (TestCase.script timed_case) None None []
              = Ok {| Outcome.exit_status := None;
                      Outcome.signal_status := Some 9;
                      Outcome.errors := ["Timeout exceeded."];
                      Outcome.script := [expect_hello];
                      Outcome.history :=
                        [Spawn "prog" 2; SetEcho false;
                         ExpectCall (Text "hello") (Some (-1)); Close true] |})
    by (vm_compute; reflexivity).
  split; [exact H|].
  destruct (C5_exit_status unit hanging timed_case None false None [] _ H)
    as [(r & self' & h' & Hrun & Hne & _) _].
  exists r, self', h'. split; [exact Hrun|].
  apply Hne. discriminate.
Defined.

(** ** The command of a case *)

(** Whatever [jailed] is, the command [TestCase.run] spawns is the command
    of the case. *)
Lemma run_spawns_own_command :
  forall (D : Type) (W : World D) (self : TestCase.t) (defs : option D)
         (jailed : bool) (g_timeout : option Z) (h : list call)
         (r : TestCase.report) (self' : TestCase.t) (h' : list call),
    TestCase.run W self defs jailed g_timeout h = Ok (r, self', h') ->
    exists calls,
      h' = h ++ Spawn (TestCase.command self) (global_timeout W g_timeout) :: calls.
Proof.
  intros D W self defs jailed g_timeout h r self' h' H.
  apply TestCase_run_Ok in H. destruct H as (o & Ho & _ & _ & ->).
  apply run_script_Ok in Ho. destruct Ho as (HR & _ & _).
  apply Runs_timeouts in HR. destruct HR as (calls & n & Hh & _).
  exists (SetEcho false :: calls). rewrite Hh, <- app_assoc. reflexivity.
Qed.

(** C8 at the failing input: a case with the command [./prog], run with
    [jailed=True] in the directory [/tmp].  The command line built and logged
    is [fakechroot chroot /tmp ./prog]; the command spawned is [./prog]. *)
Theorem C8_jail_prefix_dropped :
  TestCase.jailed_command (@obliging unit) bare_case true
  = "fakechroot chroot /tmp ./prog"
  /\ TestCase.run (@obliging unit) bare_case None true None []
     = Ok ({| TestCase.errors := []; TestCase.awarded := None |},
           TestCase.set_script bare_case [EOF_action],
           [Spawn "./prog" 2; SetEcho false; ExpectCall EOF (Some (-1)); Close true]).
Proof.
  split; vm_compute; reflexivity.
Qed.

(** ** What a run does to the script *)




(** ** The ordered dictionary *)

Section Dict.

Context {A : Type}.

Lemma get_setitem_same (k : string) (v : A) (d : list (string * A)) :
  Calico.get k (Calico.setitem k v d) = Some v.
Proof.
  induction d as [|[k' v'] d IH]; simpl.
  - now rewrite String.eqb_refl.
  - destruct (String.eqb k' k) eqn:E; simpl; rewrite E; [reflexivity | exact IH].
Qed.

Lemma get_setitem_other (k k' : string) (v : A) (d : list (string * A)) :
  k' <> k ->
  Calico.get k' (Calico.setitem k v d) = Calico.get k' d.
Proof.
  intros Hne. induction d as [|[k1 v1] d IH]; simpl.
  - destruct (String.eqb k k') eqn:E; [|reflexivity].
    apply String.eqb_eq in E. congruence.
  - destruct (String.eqb k1 k) eqn:E; simpl.
    + apply String.eqb_eq in E. subst k1.
      destruct (String.eqb k k') eqn:E'; [|reflexivity].
      apply String.eqb_eq in E'. congruence.
    + now rewrite IH.
Qed.

Lemma get_In (k : string) (v : A) (d : list (string * A)) :
  Calico.get k d = Some v -> In (k, v) d.
Proof.
  induction d as [|[k1 v1] d IH]; simpl; [discriminate|].
  destruct (String.eqb k1 k) eqn:E.
  - apply String.eqb_eq in E. intros H. injection H as <-. left. now subst.
  - intros H. right. now apply IH.
Qed.

Lemma get_None (k : string) (d : list (string * A)) :
  ~ In k (Calico.keys d) -> Calico.get k d = None.
Proof.
  induction d as [|[k1 v1] d IH]; simpl; [reflexivity|].
  intros H. destruct (String.eqb k1 k) eqn:E.
  - apply String.eqb_eq in E. tauto.
  - apply IH. tauto.
Qed.

(** Assigning to a key that is absent appends it. *)
Lemma setitem_absent (k : string) (v : A) (d : list (string * A)) :
  ~ In k (Calico.keys d) -> Calico.setitem k v d = d ++ [(k, v)].
Proof.
  induction d as [|[k1 v1] d IH]; simpl; [reflexivity|].
  intros H. destruct (String.eqb k1 k) eqn:E.
  - apply String.eqb_eq in E. tauto.
  - f_equal. apply IH. tauto.
Qed.

End Dict.

(** ** The suite loop *)

Section SuiteRun.

Context (W : World TestCase.t).

(** One turn of the loop, read back. *)
Lemma run_test_Ok g_timeout a st st' stop :
  Calico.run_test W g_timeout a st = Ok (st', stop) ->
  exists test r self',
    Calico.get a (Calico.cases (Calico.suite st)) = Some test
    /\ TestCase.run W test
         (Calico.get "_define_vars" (Calico.cases (Calico.suite st)))
         (SUPPORTS_JAIL W && String.prefix "case_" a) g_timeout (Calico.history st)
       = Ok (r, self', Calico.history st')
    /\ Calico.report st' = Calico.setitem a (Calico.Case (scored test r)) (Calico.report st)
    /\ Calico.earned_points st'
       = Calico.earned_points st
         + match TestCase.points test with
           | Some p => if passed r then p else 0
           | None => 0
           end
    /\ Calico.suite st'
       = Calico.mk (Calico.setitem a self' (Calico.cases (Calico.suite st)))
                   (Calico.points (Calico.suite st))
    /\ TestCase.points self' = TestCase.points test
    /\ TestCase.errors (scored test r) = TestCase.errors r
    /\ stop = TestCase.blocker test && negb (passed r).
Proof.
  unfold Calico.run_test.
  destruct (Calico.get a _) as [test|] eqn:Hg; [|discriminate].
  destruct (TestCase.run W test _ _ g_timeout _) as [[[r self'] h1]|] eqn:Hr;
    simpl; [|discriminate].
  pose proof (TestCase_run_Ok _ _ _ _ _ _ _ _ _ Hr) as (o & _ & Hrep & Hself & _).
  assert (Hp : TestCase.points self' = TestCase.points test) by (subst self'; reflexivity).
  assert (Hb : TestCase.blocker self' = TestCase.blocker test) by (subst self'; reflexivity).
  assert (Ha : TestCase.awarded r = None) by (subst r; reflexivity).
  intros H. injection H as <- <-.
  exists test, r, self'. simpl. rewrite Hp, Hb. unfold scored, passed.
  destruct (TestCase.points test) as [p|]; simpl; repeat split; auto.
  rewrite Ha. lia.
Qed.

(** A turn spawns the command of the case it runs, right after the calls
    made so far. *)
Lemma run_test_spawns g_timeout a st st' stop :
  Calico.run_test W g_timeout a st = Ok (st', stop) ->
  exists test calls,
    Calico.get a (Calico.cases (Calico.suite st)) = Some test
    /\ Calico.history st'
       = Calico.history st
         ++ Spawn (TestCase.command test) (global_timeout W g_timeout) :: calls.
Proof.
  intros H. apply run_test_Ok in H.
  destruct H as (test & r & self' & Hg & Hr & _).
  apply run_spawns_own_command in Hr. destruct Hr as (calls & Hh).
  exists test, calls. auto.
Qed.

(** The loop only adds to the history, and leaves alone the report
    entries of the names it is not given. *)
Lemma run_tests_frame g_timeout names :
  forall st st',
    Calico.run_tests W g_timeout names st = Ok st' ->
    (exists calls, Calico.history st' = Calico.history st ++ calls)
    /\ (forall k, ~ In k names ->
                  Calico.get k (Calico.report st') = Calico.get k (Calico.report st))
    /\ (forall k, points_for (Calico.cases (Calico.suite st')) k
                  = points_for (Calico.cases (Calico.suite st)) k)
    /\ Calico.points (Calico.suite st') = Calico.points (Calico.suite st).
Proof.
  induction names as [|a rest IH]; intros st st' H; simpl in H.
  - injection H as <-. repeat split; auto. exists []. now rewrite app_nil_r.
  - destruct (Calico.run_test W g_timeout a st) as [[st1 stop]|] eqn:H1;
      simpl in H; [|discriminate].
    pose proof (run_test_spawns _ _ _ _ _ H1) as (test0 & calls1 & _ & Hh1).
    apply run_test_Ok in H1.
    destruct H1 as (test & r & self' & Hg & _ & Hrep & _ & Hs & Hp & _).
    assert (Hpts : forall k, points_for (Calico.cases (Calico.suite st1)) k
                             = points_for (Calico.cases (Calico.suite st)) k).
    { intros k. rewrite Hs. simpl. unfold points_for.
      destruct (String.eqb k a) eqn:E.
      - apply String.eqb_eq in E. subst k.
        rewrite get_setitem_same, Hg. unfold declared. now rewrite Hp.
      - apply String.eqb_neq in E. now rewrite get_setitem_other. }
    assert (Hfr : forall k, ~ In k (a :: rest) ->
                            Calico.get k (Calico.report st1)
                            = Calico.get k (Calico.report st)).
    { intros k Hk. rewrite Hrep. apply get_setitem_other.
      intros ->. apply Hk. now left. }
    destruct stop.
    + injection H as <-. repeat split; auto.
      * eexists. exact Hh1.
      * rewrite Hs. reflexivity.
    + destruct (IH _ _ H) as ((calls & Hh) & Hk & Hq & Hpt).
      repeat split.
      * eexists. rewrite Hh, Hh1, <- app_assoc. reflexivity.
      * intros k Hin. rewrite Hk by (intros Hc; apply Hin; now right).
        now apply Hfr.
      * intros k. now rewrite Hq.
      * rewrite Hpt, Hs. reflexivity.
Qed.

End SuiteRun.

(** ** Blockers *)

(** Names that the loop gets through without stopping do not change what
    the loop does with the names after them. *)
Lemma Passes_run_tests (W : World TestCase.t) (g_timeout : option Z)
    (pre rest : list string) (st st1 : Calico.state) :
  Passes W g_timeout pre st st1 ->
  Calico.run_tests W g_timeout (pre ++ rest) st = Calico.run_tests W g_timeout rest st1.
Proof.
  induction 1 as [|n names st st1 st2 Hn _ IH]; simpl.
  - reflexivity.
  - rewrite Hn. simpl. exact IH.
Qed.

(** C3: in a run of [Calico.run] over the names [pre ++ a :: post], let the
    loop get through [pre] without stopping and let the turn for the case [a]
    return.  The [break] is taken exactly when [a] is a blocker and its report
    has errors.  When it is taken, the run returns the state that turn left,
    with the earned points added to the report: no call is made for the names
    of [post], and since the turn for [a] no report entry but that of [a] and
    ["points"] is written.  When it is not taken, in particular after a failed
    case that is no blocker, the run goes on with [post], and the command of
    its first case is spawned next. *)
Theorem C3_blocker :
  forall (W : World TestCase.t) (self : Calico.t) (tests : option (list string))
         (quiet : bool) (g_timeout : option Z) (h : list call)
         (pre : list string) (a : string) (post : list string)
         (st st' : Calico.state) (stop : bool),
    Calico.test_names self tests = Ok (pre ++ a :: post) ->
    Passes W g_timeout pre (start self h) st ->
    Calico.run_test W g_timeout a st = Ok (st', stop) ->
    exists test r,
      Calico.get a (Calico.cases (Calico.suite st)) = Some test
      /\ Calico.get a (Calico.report st') = Some (Calico.Case r)
      /\ (stop = true <-> TestCase.blocker test = true /\ TestCase.errors r <> [])
      /\ (stop = true ->
          Calico.run W self tests quiet g_timeout h = Ok (Calico.finish st')
          /\ Calico.history (Calico.finish st') = Calico.history st'
          /\ forall b, b <> a -> b <> "points" ->
                       Calico.get b (Calico.report (Calico.finish st'))
                       = Calico.get b (Calico.report st))
      /\ (stop = false ->
          Calico.run W self tests quiet g_timeout h
          = (st'' <- Calico.run_tests W g_timeout post st' ;; Ok (Calico.finish st''))
          /\ forall b post' st'',
              post = b :: post' ->
              Calico.run_tests W g_timeout post st' = Ok st'' ->
              exists next calls,
                Calico.get b (Calico.cases (Calico.suite st')) = Some next
                /\ Calico.history st''
                   = Calico.history st'
                     ++ Spawn (TestCase.command next) (global_timeout W g_timeout)
                     :: calls).
Proof.
  intros W self tests quiet g_timeout h pre a post st st' stop Hnames Hpre H.
  pose proof (run_test_Ok _ _ _ _ _ _ H)
    as (test & r & self' & Hg & _ & Hrep & _ & _ & _ & Herr & Hstop).
  assert (Hrun : Calico.run W self tests quiet g_timeout h
                 = (st'' <- Calico.run_tests W g_timeout (a :: post) st ;;
                    Ok (Calico.finish st''))).
  { unfold Calico.run. rewrite Hnames. simpl bind at 1.
    fold (start self h). now rewrite (Passes_run_tests _ _ _ _ _ _ Hpre). }
  exists test, (scored test r). repeat split.
  - exact Hg.
  - rewrite Hrep. apply get_setitem_same.
  - subst stop. apply andb_true_iff in H0. tauto.
  - subst stop. apply andb_true_iff in H0. destruct H0 as [_ Hp].
    rewrite Herr. unfold passed in Hp. intros E. rewrite E in Hp. discriminate.
  - intros [Hb He]. subst stop. rewrite Hb. simpl.
    rewrite Herr in He. unfold passed.
    destruct (TestCase.errors r); [contradiction | reflexivity].
  - rewrite Hrun. simpl. rewrite H. simpl. now rewrite H0.
  - intros b Hb Hp. simpl. rewrite get_setitem_other by exact Hp.
    rewrite Hrep. now apply get_setitem_other.
  - rewrite Hrun. simpl. rewrite H. simpl. now rewrite H0.
  - intros b post' st'' -> Hpost. simpl in Hpost.
    destruct (Calico.run_test W g_timeout b st') as [[st1 stop1]|] eqn:H1;
      simpl in Hpost; [|discriminate].
    pose proof (run_test_spawns _ _ _ _ _ _ H1) as (next & calls & Hn & Hh).
    exists next. destruct stop1.
    + injection Hpost as <-. exists calls. auto.
    + apply run_tests_frame in Hpost. destruct Hpost as ((more & Hm) & _).
      exists (calls ++ more). split; [exact Hn|].
      rewrite Hm, Hh, <- app_assoc. reflexivity.
Qed.

(** A run to which C3 applies: the first case of [blocked_suite] is a
    blocker and fails, and nothing is run or reported for the second. *)
Lemma C3_witness :
  exists st',
    Calico.run_test (@hanging TestCase.t) None "a" (start blocked_suite []) = Ok (st', true)
    /\ Calico.run (@hanging TestCase.t) blocked_suite None false None []
       = Ok (Calico.finish st')
    /\ Calico.get "b" (Calico.report (Calico.finish st')) = None
    /\ Calico.report (Calico.finish st')
       = [("a", Calico.Case
                  {| TestCase.errors := ["Timeout exceeded."; "Incorrect exit status."];
                     TestCase.awarded := Some 0 |});
          ("points", Calico.Earned 0)]
    /\ Calico.history (Calico.finish st')
       = [Spawn "first" 2; SetEcho false; ExpectCall (Text "hello") (Some (-1));
          Close true].
Proof.
  eexists.
  match goal with
  | |- ?A /\ _ => assert (H : A) by (vm_compute; reflexivity)
  end.
  split; [exact H|].
  destruct (C3_blocker hanging blocked_suite None false None [] [] "a" ["b"] _ _ _
              eq_refl (Passes_nil _ _ _) H)
    as (test & r & _ & _ & _ & Hstop & _).
  destruct (Hstop eq_refl) as (Hrun & _ & Hframe).
  split; [exact Hrun|].
  split; [rewrite Hframe; [reflexivity | discriminate | discriminate]|].
  split; reflexivity.
Defined.

(** ** Points *)

Lemma points_fold_add_case (cs : list TestCase.t) :
  forall s, Calico.points (fold_left Calico.add_case cs s)
            = Calico.points s + sum (map declared cs).
Proof.
  induction cs as [|c cs IH]; intros s; simpl.
  - lia.
  - rewrite IH. simpl. unfold declared. lia.
Qed.

(** Cases with names that are new and pairwise distinct are stored in the
    order in which they are added. *)
Lemma cases_fold_add_case (cs : list TestCase.t) :
  forall s,
    NoDup (Calico.keys (Calico.cases s) ++ map TestCase.name cs) ->
    Calico.cases (fold_left Calico.add_case cs s)
    = Calico.cases s ++ map (fun c => (TestCase.name c, c)) cs.
Proof.
  induction cs as [|c cs IH]; intros s Hnd; simpl.
  - now rewrite app_nil_r.
  - assert (Hc : ~ In (TestCase.name c) (Calico.keys (Calico.cases s))).
    { apply NoDup_remove_2 in Hnd. intros Hin. apply Hnd.
      apply in_or_app. now left. }
    rewrite IH; simpl.
    + rewrite (setitem_absent _ _ _ Hc), <- app_assoc. reflexivity.
    + rewrite (setitem_absent _ _ _ Hc). unfold Calico.keys.
      rewrite map_app. simpl. rewrite <- app_assoc. exact Hnd.
Qed.

Lemma get_added (cs : list TestCase.t) (c : TestCase.t) :
  NoDup (map TestCase.name cs) ->
  In c cs ->
  Calico.get (TestCase.name c) (map (fun c => (TestCase.name c, c)) cs) = Some c.
Proof.
  induction cs as [|c0 cs IH]; intros Hnd Hin; [contradiction|].
  simpl. inversion Hnd as [|? ? Hnot Hnd']; subst.
  destruct Hin as [->|Hin].
  - now rewrite String.eqb_refl.
  - destruct (String.eqb (TestCase.name c0) (TestCase.name c)) eqn:E.
    + apply String.eqb_eq in E. exfalso. apply Hnot. rewrite E.
      now apply in_map.
    + now apply IH.
Qed.

(** Names that are not hidden and not empty are all run. *)
Lemma runnable_visible (names : list string) :
  forall names',
    Calico.runnable names = Ok names' ->
    (forall n, In n names -> hidden n = false) ->
    names' = names.
Proof.
  induction names as [|n rest IH]; intros names' H Hv; simpl in H.
  - now injection H as <-.
  - destruct n as [|c n']; [discriminate|].
    assert (Hc : Ascii.eqb c "_"%char = false).
    { specialize (Hv (String c n') (or_introl eq_refl)).
      unfold hidden in Hv. simpl in Hv.
      destruct (ascii_dec "_"%char c) as [<-|Hne].
      - destruct n'; discriminate.
      - now apply Ascii.eqb_neq. }
    rewrite Hc in H.
    destruct (Calico.runnable rest) as [rest'|] eqn:Hr; simpl in H; [|discriminate].
    injection H as <-. f_equal. apply IH; auto.
    intros m Hm. apply Hv. now right.
Qed.

Section Earned.

Context (W : World TestCase.t).

(** When every name is run once and has an entry without errors in the
    end, the points earned are those declared for the names. *)
Lemma run_tests_earned g_timeout names :
  forall st st',
    Calico.run_tests W g_timeout names st = Ok st' ->
    NoDup names ->
    (forall n, In n names ->
               exists r, Calico.get n (Calico.report st') = Some (Calico.Case r)
                         /\ TestCase.errors r = []) ->
    Calico.earned_points st'
    = Calico.earned_points st
      + sum (map (points_for (Calico.cases (Calico.suite st))) names).
Proof.
  induction names as [|a rest IH]; intros st st' H Hnd Hall.
  - simpl in H. injection H as <-. simpl. lia.
  - inversion Hnd as [|? ? Hnot Hnd']; subst.
    simpl in H.
    destruct (Calico.run_test W g_timeout a st) as [[st1 stop]|] eqn:H1;
      simpl in H; [|discriminate].
    assert (Hone : Calico.run_tests W g_timeout [a] st = Ok st1).
    { simpl. rewrite H1. simpl. now destruct stop. }
    apply run_tests_frame in Hone. destruct Hone as (_ & _ & Hpts & _).
    apply run_test_Ok in H1.
    destruct H1 as (test & r & self' & Hg & _ & Hrep & He & _ & _ & Herr & Hstop).
    assert (Ha : Calico.get a (Calico.report st1) = Some (Calico.Case (scored test r)))
      by (rewrite Hrep; apply get_setitem_same).
    assert (Hpass : Calico.get a (Calico.report st') = Some (Calico.Case (scored test r))
                    -> passed r = true).
    { intros Hget. destruct (Hall a (or_introl eq_refl)) as (r' & Hr' & E).
      rewrite Hget in Hr'. injection Hr' as <-. rewrite Herr in E.
      unfold passed. now rewrite E. }
    destruct stop.
    + injection H as <-. rewrite (Hpass Ha), andb_false_r in Hstop. discriminate.
    + pose proof (run_tests_frame _ _ _ _ _ H) as (_ & Hfr & _ & _).
      rewrite <- (Hfr a Hnot) in Ha. specialize (Hpass Ha).
      rewrite (IH _ _ H Hnd'), He, Hpass.
      * simpl. rewrite (map_ext _ _ Hpts).
        unfold points_for at 2. rewrite Hg. unfold declared.
        destruct (TestCase.points test); lia.
      * intros n Hn. apply Hall. now right.
Qed.

End Earned.




(** ** Parsing the [return] field *)

(** [__init__] has no parameter [returns]. *)
Lemma returns_is_no_parameter (self : TestCase.t) (v : kwvalue)
    (rest : list (string * kwvalue)) :
  TestCase.bind_keywords self (("returns", v) :: rest) = Raise TypeError.
Proof.
  reflexivity.
Qed.

(** Whatever else a case holds, a [return] field that is not null keeps
    [parse_spec] from returning a case. *)
Lemma return_field_never_parses (test_name : string) (test v : yaml) :
  yaml_get test "return" = Ok (Some v) ->
  is_ok (parse_test test_name test) = false.
Proof.
  intros Hret. unfold parse_test.
  destruct (yaml_get test "run") as [[run|]|]; simpl; try reflexivity.
  destruct run; simpl; try reflexivity.
  unfold field_kwargs at 1. rewrite Hret. simpl.
  destruct (as_int v) as [k|]; simpl; [|reflexivity].
  destruct (timeout_kwargs test "run" test_name); simpl; [|reflexivity].
  destruct (field_kwargs test "points" "points" _ _); simpl; [|reflexivity].
  destruct (field_kwargs test "blocker" "blocker" _ _); simpl; [|reflexivity].
  destruct (field_kwargs test "visible" "visible" _ _); simpl; reflexivity.
Qed.

(** C9 at the failing input: the document whose one case has [run: ./prog]
    and [return: 2].  [parse_spec] passes the value under the keyword
    [returns], which [TestCase.__init__] does not have, and the call raises
    [TypeError].  Without the [return] line the document parses, to a case
    that expects the exit status 0. *)
Theorem C9_return_field :
  parse_document returning_spec = Raise TypeError
  /\ parse_document plain_spec
     = Ok (suite_of [TestCase.add_action (TestCase.init "case_1" "./prog") EOF_action])
  /\ TestCase.exits (TestCase.add_action (TestCase.init "case_1" "./prog") EOF_action)
     = Some 0.
Proof.
  repeat split; vm_compute; reflexivity.
Qed.

Lemma field_kwargs_shape test key keyword accept msg l :
  field_kwargs test key keyword accept msg = Ok l ->
  l = [] \/ exists k, l = [(keyword, k)].
Proof.
  unfold field_kwargs.
  destruct (yaml_get test key) as [[v|]|]; simpl; try discriminate.
  - destruct (accept v) as [k|]; [|discriminate].
    intros H. injection H as <-. right. now exists k.
  - intros H. injection H as <-. now left.
Qed.

Lemma timeout_kwargs_shape node name test_name l :
  timeout_kwargs node name test_name = Ok l ->
  l = [] \/ exists k, l = [("timeout", k)].
Proof.
  unfold timeout_kwargs.
  destruct (get_comment_value node name "timeout") as [[t|]|]; simpl; try discriminate.
  - destruct (assert _ _); simpl; [|discriminate].
    destruct (int t); simpl; [|discriminate].
    intros H. injection H as <-. right. eauto.
  - intros H. injection H as <-. now left.
Qed.

Lemma add_steps_exits test_name steps :
  forall case case',
    add_steps test_name case steps = Ok case' ->
    TestCase.exits case' = TestCase.exits case.
Proof.
  induction steps as [|step rest IH]; intros case case' H; simpl in H.
  - now injection H as <-.
  - destruct (parse_step test_name step) as [action|]; simpl in H; [|discriminate].
    now rewrite (IH _ _ H).
Qed.

(** Every case that [parse_spec] returns expects the exit status 0. *)
Lemma parsed_case_expects_0 (test_name : string) (test : yaml) (case : TestCase.t) :
  parse_test test_name test = Ok case ->
  TestCase.exits case = Some 0.
Proof.
  unfold parse_test.
  destruct (yaml_get test "run") as [[run|]|]; simpl; try discriminate.
  destruct run; simpl; try discriminate.
  destruct (field_kwargs test "return" "returns" _ _) as [k1|] eqn:H1;
    simpl; [|discriminate].
  destruct (timeout_kwargs test "run" test_name) as [k2|] eqn:H2; simpl; [|discriminate].
  destruct (field_kwargs test "points" "points" _ _) as [k3|] eqn:H3;
    simpl; [|discriminate].
  destruct (field_kwargs test "blocker" "blocker" _ _) as [k4|] eqn:H4;
    simpl; [|discriminate].
  destruct (field_kwargs test "visible" "visible" _ _) as [k5|] eqn:H5;
    simpl; [|discriminate].
  apply field_kwargs_shape in H1, H3, H4, H5. apply timeout_kwargs_shape in H2.
  destruct H1 as [->|(v1 & ->)]; [|discriminate].
  assert (Hnew : forall c, TestCase.new test_name s (k2 ++ k3 ++ k4 ++ k5) = Ok c ->
                           TestCase.exits c = Some 0).
  { destruct H2 as [->|(v2 & ->)], H3 as [->|(v3 & ->)],
             H4 as [->|(v4 & ->)], H5 as [->|(v5 & ->)];
      intros c Hc; injection Hc as <-; reflexivity. }
  simpl. destruct (TestCase.new test_name s _) as [c|]; simpl; [|discriminate].
  specialize (Hnew c eq_refl).
  destruct (yaml_get test "script") as [[script|]|]; simpl; try discriminate.
  - destruct (steps_of script) as [steps|]; simpl; [|discriminate].
    intros H. now rewrite (add_steps_exits _ _ _ _ H).
  - intros H. injection H as <-. exact Hnew.
Qed.

Lemma values_setitem {A : Type} (k : string) (v x : A) (d : list (string * A)) :
  In x (Calico.values (Calico.setitem k v d)) -> x = v \/ In x (Calico.values d).
Proof.
  induction d as [|[k1 v1] d IH]; simpl.
  - intros [<-|[]]. now left.
  - destruct (String.eqb k1 k); simpl.
    + intros [<-|H]; auto.
    + intros [<-|H]; auto. destruct (IH H); auto.
Qed.

Lemma add_tests_exits (tests : list (string * yaml)) :
  forall runner suite,
    add_tests runner tests = Ok suite ->
    (forall c, In c (Calico.values (Calico.cases runner)) -> TestCase.exits c = Some 0) ->
    forall c, In c (Calico.values (Calico.cases suite)) -> TestCase.exits c = Some 0.
Proof.
  induction tests as [|[test_name test] rest IH]; intros runner suite H Hall; simpl in H.
  - now injection H as <-.
  - destruct (parse_test test_name test) as [case|] eqn:Hp; simpl in H; [|discriminate].
    apply (IH _ _ H). simpl. intros c Hc.
    apply values_setitem in Hc. destruct Hc as [->|Hc].
    + exact (parsed_case_expects_0 _ _ _ Hp).
    + now apply Hall.
Qed.

(** Every case of a suite that [parse_spec] returns expects the exit
    status 0: a [return] field never reaches a case. *)
Lemma parsed_suite_expects_0 (L : Library) (content : string) (suite : Calico.t) :
  parse_spec L content = Ok suite ->
  forall c, In c (Calico.values (Calico.cases suite)) -> TestCase.exits c = Some 0.
Proof.
  unfold parse_spec, parse_document.
  destruct (round_trip_load L content) as [spec|e]; [|destruct e; discriminate].
  destruct spec; try discriminate.
  destruct (collect_tests items) as [tests|]; simpl; [|discriminate].
  intros H. apply (add_tests_exits _ _ _ H). simpl. contradiction.
Qed.

(** ** Rendering *)

Lemma TestCase_str_rendered (L : Library) (a b : TestCase.t) :
  rendered a = rendered b -> TestCase_str L a = TestCase_str L b.
Proof.
  destruct a, b. unfold rendered. simpl.
  intros H. injection H as -> -> -> -> ->. reflexivity.
Qed.

Lemma map_rendered_str (L : Library) (xs : list TestCase.t) :
  forall ys,
    map rendered xs = map rendered ys ->
    map (TestCase_str L) xs = map (TestCase_str L) ys.
Proof.
  induction xs as [|x xs IH]; intros [|y ys] H; cbn [map] in *;
    try discriminate; [reflexivity|].
  injection H as Hxs Hp He Hs Hc Hn.
  f_equal; [|now apply IH].
  apply TestCase_str_rendered. unfold rendered. congruence.
Qed.




(** * Further properties *)

(** ** The calls of [run_script] *)

Section Calls.

Context {D : Type} (W : World D) (defs : option D).

(** The calls of the loop are the calls of the actions reached, in order,
    followed by the forced close; the loop reaches every action when it
    records no error, and otherwise stops at an [Expect]. *)
Lemma Runs_calls todo h errors script h' :
  Runs W defs todo h errors script h' ->
  exists k,
    (k <= List.length script)%nat
    /\ h' = h ++ map call_of (firstn k script) ++ [Close true]
    /\ (errors = [] -> k = List.length script)
    /\ (errors <> [] ->
        exists j a, k = S j /\ nth_error script j = Some a /\ Action.type_ a = EXPECT).
Proof.
  induction 1.
  - apply invoke_Ok in H. exists 0%nat. simpl. repeat split; auto. contradiction.
  - apply invoke_Ok in H1. subst h1.
    destruct IHRuns as (k & Hk & -> & He & Hne).
    assert (Hc : call_of a' = SendLine (Action.data a'))
      by (unfold call_of; now rewrite H0).
    exists (S k). cbn [firstn map List.length]. rewrite Hc.
    repeat split.
    + lia.
    + now rewrite <- app_assoc.
    + intros E. f_equal. now apply He.
    + intros E. destruct (Hne E) as (j & b & -> & Hb & Hty).
      exists (S j), b. auto.
  - destruct IHRuns as (k & Hk & -> & He & Hne).
    assert (Hc : call_of a' = ExpectCall (Action.data a') (Action.timeout a'))
      by (unfold call_of; now rewrite H0).
    exists (S k). cbn [firstn map List.length]. rewrite Hc.
    repeat split.
    + lia.
    + now rewrite <- app_assoc.
    + intros E. f_equal. now apply He.
    + intros E. destruct (Hne E) as (j & b & -> & Hb & Hty).
      exists (S j), b. auto.
  - apply invoke_Ok in H4. subst h'.
    assert (Hc : call_of a' = ExpectCall (Action.data a') (Action.timeout a'))
      by (unfold call_of; now rewrite H0).
    exists 1%nat. cbn [firstn map List.length]. rewrite Hc.
    repeat split.
    + lia.
    + now rewrite <- app_assoc.
    + discriminate.
    + intros _. exists 0%nat, a'. auto.
Qed.

End Calls.



(** ** The trailing action over several runs *)

(** The end-of-output action at the end of a script stays there through a
    run. *)
Lemma Runs_keeps_trailing_EOF {D : Type} (W : World D) (defs : option D)
    (todo : list Action.t) (h : list call) (errors : list string)
    (script : list Action.t) (h' : list call) :
  Runs W defs (todo ++ [EOF_action]) h errors script h' ->
  exists s0, script = s0 ++ [EOF_action] /\ List.length s0 = List.length todo.
Proof.
  intros HR. apply Runs_data in HR.
  apply Forall2_app_inv_l in HR. destruct HR as (s0 & s1 & H0 & H1 & ->).
  inversion H1 as [|? a' ? l' Ha Hl]; subst. inversion Hl; subst.
  exists s0. split.
  - destruct Ha as [->|Ha]; [reflexivity|].
    unfold substitute in Ha. simpl in Ha. now injection Ha as <-.
  - symmetry. eapply Forall2_length. exact H0.
Qed.

(** X2: a run that appends the end-of-output action to the script of a
    case leaves the script one action longer and ending in that action, so
    that no later run of the case, with whatever process, definitions and
    timeout, appends again. *)
Theorem trailing_EOF_appended_once :
  forall (D : Type) (W W' : World D) (self : TestCase.t) (defs defs' : option D)
         (jailed jailed' : bool) (g_timeout g_timeout' : option Z) (h h0 : list call)
         (r r' : TestCase.report) (self1 self2 : TestCase.t) (h1 h2 : list call),
    needs_EOF (TestCase.script self) = true ->
    TestCase.run W self defs jailed g_timeout h = Ok (r, self1, h1) ->
    TestCase.run W' self1 defs' jailed' g_timeout' h0 = Ok (r', self2, h2) ->
    List.length (TestCase.script self1) = S (List.length (TestCase.script self))
    /\ last (TestCase.script self1) EOF_action = EOF_action
    /\ needs_EOF (TestCase.script self1) = false
    /\ List.length (TestCase.script self2) = List.length (TestCase.script self1).
Proof.
  intros D W W' self defs defs' jailed jailed' g g' h h0 r r' self1 self2 h1 h2
         Hn H1 H2.
  apply TestCase_run_Ok in H1. destruct H1 as (o & Ho & _ & -> & _).
  apply run_script_Ok in Ho. destruct Ho as (HR & _ & _).
  unfold with_trailing_EOF in HR. rewrite Hn in HR.
  apply Runs_keeps_trailing_EOF in HR. destruct HR as (s0 & Hs & Hl).
  simpl. rewrite Hs.
  assert (Hneeds : needs_EOF (s0 ++ [EOF_action]) = false)
    by (rewrite needs_EOF_snoc; reflexivity).
  repeat split.
  - rewrite length_app. simpl. lia.
  - apply last_last.
  - exact Hneeds.
  - apply TestCase_run_Ok in H2. destruct H2 as (o2 & Ho2 & _ & -> & _).
    apply run_script_Ok in Ho2. destruct Ho2 as (HR2 & _ & _).
    simpl in HR2. rewrite Hs in HR2.
    unfold with_trailing_EOF in HR2. rewrite Hneeds in HR2.
    apply Runs_shape in HR2. destruct HR2 as [Hty _].
    simpl. rewrite <- (length_map Action.type_), Hty, length_map. reflexivity.
Qed.

(** Two runs to which X2 applies: a case whose script is one [Send]. *)
Lemma trailing_EOF_appended_once_witness :
  exists r self1 h1 r' self2 h2,
    needs_EOF (TestCase.script sending_case) = true
    /\ TestCase.run (@obliging unit) sending_case None false None [] = Ok (r, self1, h1)
    /\ TestCase.run (@hanging unit) self1 None false (Some 7) h1 = Ok (r', self2, h2)
    /\ TestCase.script self1 = [send_hello; EOF_action]
    /\ List.length (TestCase.script self1) = S (List.length (TestCase.script sending_case))
    /\ last (TestCase.script self1) EOF_action = EOF_action
    /\ needs_EOF (TestCase.script self1) = false
    /\ List.length (TestCase.script self2) = List.length (TestCase.script self1).
Proof.
  eexists _, _, _, _, _, _.
  split; [reflexivity|].
  match goal with
  | |- ?A /\ _ => assert (H1 : A) by (vm_compute; reflexivity)
  end.
  split; [exact H1|].
  match goal with
  | |- ?A /\ _ => assert (H2 : A) by (vm_compute; reflexivity)
  end.
  split; [exact H2|]. split; [reflexivity|].
  exact (trailing_EOF_appended_once unit obliging hanging sending_case
           None None false false None (Some 7) [] _ _ _ _ _ _ _ eq_refl H1 H2).
Defined.

(** ** The errors of a case *)

(** X3: the report [TestCase.run] returns is free of errors exactly when
    [run_script] recorded none and the exit status is the expected one; it
    never holds more than two messages, and these are among
    ["Expected output not received."], ["Timeout exceeded."] and
    ["Incorrect exit status."]. *)
Theorem case_report_errors :
  forall (D : Type) (W : World D) (self : TestCase.t) (defs : option D)
         (jailed : bool) (g_timeout : option Z) (h : list call)
         (r : TestCase.report) (self' : TestCase.t) (h' : list call),
    TestCase.run W self defs jailed g_timeout h = Ok (r, self', h') ->
    exists o,
      run_script W (TestCase.command self) (TestCase.script self) defs g_timeout h = Ok o
      /\ (TestCase.errors r = []
          <-> Outcome.errors o = [] /\ Outcome.exit_status o = TestCase.exits self)
      /\ (List.length (TestCase.errors r) <= 2)%nat
      /\ Forall (fun e => In e ["Expected output not received."; "Timeout exceeded.";
                                "Incorrect exit status."])
                (TestCase.errors r).
Proof.
  intros D W self defs jailed g_timeout h r self' h' H.
  apply TestCase_run_Ok in H. destruct H as (o & Ho & -> & _ & _).
  exists o. split; [exact Ho|].
  apply run_script_Ok in Ho. destruct Ho as (HR & _ & _).
  apply Runs_errors in HR.
  unfold report_of. simpl.
  assert (Hin : Forall (fun e => In e ["Expected output not received.";
                                       "Timeout exceeded."; "Incorrect exit status."])
                       (Outcome.errors o ++ ["Incorrect exit status."])).
  { destruct HR as [->|[->| ->]]; simpl;
      repeat (apply Forall_cons; [simpl; auto 6|]); apply Forall_nil. }
  assert (Hlen : (List.length (Outcome.errors o) <= 1)%nat)
    by (destruct HR as [->|[->| ->]]; simpl; lia).
  destruct (TestCase.status_differs _ _) eqn:E.
  - apply status_differs_iff in E. split; [|split].
    + split.
      * intros H. destruct (Outcome.errors o); discriminate.
      * intros [_ H]. contradiction.
    + rewrite length_app. simpl. lia.
    + exact Hin.
  - assert (Heq : Outcome.exit_status o = TestCase.exits self).
    { destruct (Outcome.exit_status o) as [x|], (TestCase.exits self) as [y|];
        simpl in E; try discriminate; try reflexivity.
      apply negb_false_iff, Z.eqb_eq in E. now subst. }
    split; [|split].
    + tauto.
    + lia.
    + apply Forall_app in Hin. tauto.
Qed.

(** A run to which X3 applies: the expected text never comes and the child
    is killed. *)
Lemma case_report_errors_witness :
  exists r self' h',
    TestCase.run (@hanging unit) timed_case None false None [] = Ok (r, self', h')
    /\ TestCase.errors r = ["Timeout exceeded."; "Incorrect exit status."]
    /\ exists o,
        run_script (@hanging unit) (TestCase.command timed_case)
                   (TestCase.script timed_case) None None [] = Ok o
        /\ (TestCase.errors r = []
            <-> Outcome.errors o = [] /\ Outcome.exit_status o = TestCase.exits timed_case)
        /\ (List.length (TestCase.errors r) <= 2)%nat
        /\ Forall (fun e => In e ["Expected output not received."; "Timeout exceeded.";
                                  "Incorrect exit status."])
                  (TestCase.errors r).
Proof.
  eexists _, _, _.
  match goal with
  | |- ?A /\ _ => assert (H : A) by (vm_compute; reflexivity)
  end.
  split; [exact H|]. split; [reflexivity|].
  exact (case_report_errors unit hanging timed_case None false None [] _ _ _ H).
Defined.

(** ** Adding cases *)

Lemma In_setitem {A : Type} (k n : string) (v x : A) (d : list (string * A)) :
  In (n, x) (Calico.setitem k v d) -> (n = k /\ x = v) \/ In (n, x) d.
Proof.
  induction d as [|[k1 v1] d IH]; simpl.
  - intros [H|[]]. injection H as <- <-. now left.
  - destruct (String.eqb k1 k) eqn:E; simpl.
    + apply String.eqb_eq in E. subst k1.
      intros [H|H]; [injection H as <- <-; now left | now right; right].
    + intros [H|H]; [now right; left|].
      destruct (IH H) as [?|?]; [now left | now right; right].
Qed.

Lemma keys_setitem_present {A : Type} (k : string) (v : A) (d : list (string * A)) :
  In k (Calico.keys d) -> Calico.keys (Calico.setitem k v d) = Calico.keys d.
Proof.
  induction d as [|[k1 v1] d IH]; simpl; [contradiction|].
  destruct (String.eqb k1 k) eqn:E; simpl; [reflexivity|].
  intros [->|H]; [now rewrite String.eqb_refl in E|].
  f_equal. now apply IH.
Qed.

Lemma keys_setitem_absent {A : Type} (k : string) (v : A) (d : list (string * A)) :
  ~ In k (Calico.keys d) -> Calico.keys (Calico.setitem k v d) = Calico.keys d ++ [k].
Proof.
  intros H. rewrite (setitem_absent _ _ _ H).
  unfold Calico.keys. now rewrite map_app.
Qed.

(** Assignment keeps the keys of the dictionary distinct. *)
Lemma NoDup_keys_setitem {A : Type} (k : string) (v : A) (d : list (string * A)) :
  NoDup (Calico.keys d) -> NoDup (Calico.keys (Calico.setitem k v d)).
Proof.
  intros Hnd. destruct (in_dec string_dec k (Calico.keys d)) as [Hin|Hout].
  - now rewrite keys_setitem_present.
  - rewrite keys_setitem_absent by exact Hout.
    apply NoDup_app; [exact Hnd | repeat constructor; intros [] | ].
    intros x Hx [<-|[]]. contradiction.
Qed.

Lemma suite_of_snoc (cs : list TestCase.t) (c : TestCase.t) :
  suite_of (cs ++ [c]) = Calico.add_case (suite_of cs) c.
Proof.
  unfold suite_of. now rewrite fold_left_app.
Qed.

(** X4: after any sequence of [add_case] calls the suite holds one case
    per name: looking a name up gives the case added last under that name
    (and nothing for a name never added), and every case of the suite is
    stored under its own name. *)
Theorem suite_holds_last_added :
  forall (cs : list TestCase.t) (n : string),
    NoDup (Calico.keys (Calico.cases (suite_of cs)))
    /\ Calico.get n (Calico.cases (suite_of cs))
       = find (fun c => String.eqb (TestCase.name c) n) (rev cs)
    /\ (forall k c, In (k, c) (Calico.cases (suite_of cs)) ->
                    TestCase.name c = k /\ In c cs)
    /\ (In n (Calico.keys (Calico.cases (suite_of cs))) <-> In n (map TestCase.name cs)).
Proof.
  intros cs. induction cs as [|c cs IH] using rev_ind; intros n.
  - simpl. repeat split; try constructor; try contradiction.
  - rewrite suite_of_snoc. unfold Calico.add_case. simpl.
    destruct (IH n) as (Hnd & Hget & Hin & Hkeys).
    repeat split.
    + now apply NoDup_keys_setitem.
    + rewrite rev_app_distr. simpl.
      destruct (String.eqb (TestCase.name c) n) eqn:E.
      * apply String.eqb_eq in E. subst n. apply get_setitem_same.
      * apply String.eqb_neq in E.
        rewrite get_setitem_other by congruence. exact Hget.
    + apply In_setitem in H. destruct H as [[-> ->]|H]; [reflexivity|].
      now apply Hin.
    + apply In_setitem in H. destruct H as [[-> ->]|H].
      * apply in_or_app. right. now left.
      * apply in_or_app. left. now apply (Hin k).
    + intros H. rewrite map_app. apply in_or_app.
      destruct (in_dec string_dec (TestCase.name c)
                       (Calico.keys (Calico.cases (suite_of cs)))) as [Hc|Hc].
      * rewrite keys_setitem_present in H by exact Hc. left. now apply Hkeys.
      * rewrite keys_setitem_absent in H by exact Hc.
        apply in_app_or in H. destruct H as [H|[<-|[]]].
        -- left. now apply Hkeys.
        -- right. now left.
    + intros H. rewrite map_app in H. apply in_app_or in H.
      destruct (in_dec string_dec (TestCase.name c)
                       (Calico.keys (Calico.cases (suite_of cs)))) as [Hc|Hc].
      * rewrite keys_setitem_present by exact Hc.
        destruct H as [H|[<-|[]]]; [now apply Hkeys | exact Hc].
      * rewrite keys_setitem_absent by exact Hc. apply in_or_app.
        destruct H as [H|[<-|[]]]; [left; now apply Hkeys | right; now left].
Qed.

(** ** The names of a default run *)

Lemma hidden_String (c : ascii) (s : string) :
  hidden (String c s) = Ascii.eqb c "_"%char.
Proof.
  unfold hidden. cbn [String.prefix].
  destruct (ascii_dec "_"%char c) as [<-|Hne].
  - now destruct s.
  - symmetry. apply Ascii.eqb_neq. congruence.
Qed.

Lemma runnable_filter (names : list string) :
  (In "" names -> Calico.runnable names = Raise IndexError)
  /\ (~ In "" names ->
      Calico.runnable names = Ok (filter (fun n => negb (hidden n)) names)).
Proof.
  induction names as [|n rest [IHin IHout]]; simpl.
  - split; [contradiction | reflexivity].
  - destruct n as [|c n'].
    + split; [reflexivity | tauto].
    + rewrite hidden_String.
      split.
      * intros [H|H]; [discriminate|].
        rewrite (IHin H). now destruct (Ascii.eqb c "_").
      * intros H. rewrite IHout by tauto.
        now destruct (Ascii.eqb c "_").
Qed.

(** X5: run without a list of tests, [Calico.run] takes the names of the
    suite that do not begin with an underscore, in the order of the suite;
    when the suite has a case with the empty name it raises [IndexError]
    instead, before any case is run. *)
Theorem default_test_names :
  forall (W : World TestCase.t) (self : Calico.t) (quiet : bool)
         (g_timeout : option Z) (h : list call),
    (In "" (Calico.keys (Calico.cases self)) ->
     Calico.run W self None quiet g_timeout h = Raise IndexError)
    /\ (~ In "" (Calico.keys (Calico.cases self)) ->
        Calico.test_names self None
        = Ok (filter (fun n => negb (hidden n)) (Calico.keys (Calico.cases self)))
        /\ Calico.run W self None quiet g_timeout h
           = Calico.run W self
               (Some (filter (fun n => negb (hidden n)) (Calico.keys (Calico.cases self))))
               quiet g_timeout h).
Proof.
  intros W self quiet g_timeout h.
  destruct (runnable_filter (Calico.keys (Calico.cases self))) as [Hin Hout].
  split.
  - intros H. unfold Calico.run, Calico.test_names. now rewrite (Hin H).
  - intros H. unfold Calico.run, Calico.test_names. now rewrite (Hout H).
Qed.

(** ** What a run of the suite leaves behind *)

Lemma get_Some_keys {A : Type} (k : string) (v : A) (d : list (string * A)) :
  Calico.get k d = Some v -> In k (Calico.keys d).
Proof.
  intros H. apply get_In in H. unfold Calico.keys.
  change k with (fst (k, v)). now apply in_map.
Qed.

Lemma NoDup_keys_get {A : Type} (k : string) (v : A) (d : list (string * A)) :
  NoDup (Calico.keys d) -> In (k, v) d -> Calico.get k d = Some v.
Proof.
  induction d as [|[k1 v1] d IH]; simpl; [contradiction|].
  intros Hnd [H|H].
  - injection H as -> ->. now rewrite String.eqb_refl.
  - inversion Hnd as [|? ? Hnot Hnd']; subst.
    destruct (String.eqb k1 k) eqn:E.
    + apply String.eqb_eq in E. subst k1. exfalso. apply Hnot.
      unfold Calico.keys. change k with (fst (k, v)). now apply in_map.
    + now apply IH.
Qed.

Section SuiteAfter.

Context (W : World TestCase.t).

(** A turn replaces the case it runs by the same case with another
    script. *)
Lemma run_test_case g_timeout a st st' stop :
  Calico.run_test W g_timeout a st = Ok (st', stop) ->
  exists test self' r,
    Calico.get a (Calico.cases (Calico.suite st)) = Some test
    /\ self' = TestCase.set_script test (TestCase.script self')
    /\ Calico.suite st'
       = Calico.mk (Calico.setitem a self' (Calico.cases (Calico.suite st)))
                   (Calico.points (Calico.suite st))
    /\ Calico.report st' = Calico.setitem a (Calico.Case (scored test r)) (Calico.report st)
    /\ TestCase.awarded r = None
    /\ Calico.earned_points st'
       = Calico.earned_points st
         + match TestCase.points test with
           | Some p => if passed r then p else 0
           | None => 0
           end
    /\ stop = TestCase.blocker test && negb (passed r)
    /\ exists k script,
        Calico.history st'
        = Calico.history st
          ++ [Spawn (TestCase.command test) (global_timeout W g_timeout); SetEcho false]
          ++ map call_of (firstn k script) ++ [Close true].
Proof.
  intros H. apply run_test_Ok in H.
  destruct H as (test & r & self' & Hg & Hrun & Hrep & He & Hs & _ & _ & Hstop).
  apply TestCase_run_Ok in Hrun. destruct Hrun as (o & Ho & Hr & Hself & Hh).
  exists test, self', r. repeat split; auto.
  - rewrite Hself. reflexivity.
  - rewrite Hr. reflexivity.
  - apply run_script_Ok in Ho. destruct Ho as (HR & _ & _).
    apply Runs_calls in HR. destruct HR as (k & _ & Hk & _).
    exists k, (Outcome.script o). rewrite Hh, Hk, <- app_assoc. reflexivity.
Qed.

(** Through the loop the report keeps its names distinct and gains only
    case entries for names that are run and are in the suite; the suite keeps
    its names, and each of its cases changes in its script only. *)
Lemma run_tests_leaves g_timeout names :
  forall st st',
    Calico.run_tests W g_timeout names st = Ok st' ->
    (NoDup (Calico.keys (Calico.report st)) -> NoDup (Calico.keys (Calico.report st')))
    /\ (forall n e, In (n, e) (Calico.report st') ->
                    In (n, e) (Calico.report st)
                    \/ (In n names /\ In n (Calico.keys (Calico.cases (Calico.suite st)))
                        /\ exists r, e = Calico.Case r))
    /\ Calico.keys (Calico.cases (Calico.suite st'))
       = Calico.keys (Calico.cases (Calico.suite st))
    /\ (forall n c', Calico.get n (Calico.cases (Calico.suite st')) = Some c' ->
                     exists c, Calico.get n (Calico.cases (Calico.suite st)) = Some c
                               /\ c' = TestCase.set_script c (TestCase.script c')).
Proof.
  induction names as [|a rest IH]; intros st st' H; simpl in H.
  - injection H as <-. repeat split; auto.
    intros n c' Hc. exists c'. split; [exact Hc | now destruct c'].
  - destruct (Calico.run_test W g_timeout a st) as [[st1 stop]|] eqn:H1;
      simpl in H; [|discriminate].
    apply run_test_case in H1.
    destruct H1 as (test & self' & r & Hg & Hself & Hs & Hrep & _).
    assert (Hkeys : Calico.keys (Calico.cases (Calico.suite st1))
                    = Calico.keys (Calico.cases (Calico.suite st))).
    { rewrite Hs. simpl. apply keys_setitem_present. eapply get_Some_keys. exact Hg. }
    assert (Hnd : NoDup (Calico.keys (Calico.report st)) ->
                  NoDup (Calico.keys (Calico.report st1)))
      by (rewrite Hrep; apply NoDup_keys_setitem).
    assert (Hin : forall n e, In (n, e) (Calico.report st1) ->
                              In (n, e) (Calico.report st)
                              \/ (In n (a :: rest)
                                  /\ In n (Calico.keys (Calico.cases (Calico.suite st)))
                                  /\ exists r, e = Calico.Case r)).
    { intros n e Hne. rewrite Hrep in Hne. apply In_setitem in Hne.
      destruct Hne as [[-> ->]|Hne]; [right | now left].
      split; [now left|]. split; [eapply get_Some_keys; exact Hg | eauto]. }
    assert (Hcase : forall n c', Calico.get n (Calico.cases (Calico.suite st1)) = Some c' ->
                      exists c, Calico.get n (Calico.cases (Calico.suite st)) = Some c
                                /\ c' = TestCase.set_script c (TestCase.script c')).
    { intros n c' Hc. rewrite Hs in Hc. simpl in Hc.
      destruct (string_dec n a) as [->|Hne].
      - rewrite get_setitem_same in Hc. injection Hc as <-. exists test. auto.
      - rewrite get_setitem_other in Hc by exact Hne.
        exists c'. split; [exact Hc | now destruct c']. }
    destruct stop.
    + injection H as <-. repeat split; auto.
    + destruct (IH _ _ H) as (Hnd' & Hin' & Hkeys' & Hcase').
      repeat split.
      * auto.
      * intros n e Hne. destruct (Hin' n e Hne) as [Hold|(Hn & Hk & Hr)].
        -- now apply Hin.
        -- right. split; [now right|]. split; [now rewrite <- Hkeys | exact Hr].
      * now rewrite Hkeys'.
      * intros n c'' Hc. destruct (Hcase' n c'' Hc) as (c' & Hc' & Heq).
        destruct (Hcase n c' Hc') as (c & Hc0 & Heq').
        exists c. split; [exact Hc0|]. rewrite Heq, Heq'. reflexivity.
Qed.

End SuiteAfter.

(** X6: in the report of a returning [Calico.run] no name occurs twice;
    the entry under ["points"] is the earned points, and every other entry is
    the report of a case whose name is among the names run and is a name of
    the suite. *)
Theorem report_of_run :
  forall (W : World TestCase.t) (self : Calico.t) (tests : option (list string))
         (quiet : bool) (g_timeout : option Z) (h : list call) (st : Calico.state),
    Calico.run W self tests quiet g_timeout h = Ok st ->
    exists names,
      Calico.test_names self tests = Ok names
      /\ NoDup (Calico.keys (Calico.report st))
      /\ Calico.get "points" (Calico.report st)
         = Some (Calico.Earned (Calico.earned_points st))
      /\ forall n e, In (n, e) (Calico.report st) ->
           (n = "points" /\ e = Calico.Earned (Calico.earned_points st))
           \/ (n <> "points" /\ In n names /\ In n (Calico.keys (Calico.cases self))
               /\ exists r, e = Calico.Case r).
Proof.
  intros W self tests quiet g_timeout h st H.
  unfold Calico.run in H.
  destruct (Calico.test_names self tests) as [names|] eqn:Hn; simpl in H; [|discriminate].
  destruct (Calico.run_tests W g_timeout names _) as [st0|] eqn:Ht;
    simpl in H; [|discriminate].
  injection H as <-. exists names. split; [reflexivity|].
  apply run_tests_leaves in Ht. destruct Ht as (Hnd & Hin & _ & _).
  simpl in Hnd, Hin. specialize (Hnd (NoDup_nil _)).
  assert (Hnd' : NoDup (Calico.keys (Calico.report (Calico.finish st0))))
    by (apply NoDup_keys_setitem; exact Hnd).
  assert (Hp : Calico.get "points" (Calico.report (Calico.finish st0))
               = Some (Calico.Earned (Calico.earned_points st0)))
    by apply get_setitem_same.
  split; [exact Hnd'|]. split; [exact Hp|].
  intros n e Hne.
  destruct (string_dec n "points") as [->|Hneq].
  - left. split; [reflexivity|].
    apply (NoDup_keys_get _ _ _ Hnd') in Hne. rewrite Hp in Hne. now injection Hne.
  - right. split; [exact Hneq|].
    simpl in Hne. apply In_setitem in Hne.
    destruct Hne as [[-> _]|Hne]; [contradiction|].
    destruct (Hin n e Hne) as [[]|(Ha & Hb & Hc)]. auto.
Qed.

(** A run to which X6 applies. *)
Lemma report_of_run_witness :
  exists st,
    Calico.run (@obliging TestCase.t) partly_hidden_suite None false None [] = Ok st
    /\ Calico.keys (Calico.report st) = ["a"; "points"]
    /\ exists names,
        Calico.test_names partly_hidden_suite None = Ok names
        /\ NoDup (Calico.keys (Calico.report st))
        /\ Calico.get "points" (Calico.report st)
           = Some (Calico.Earned (Calico.earned_points st))
        /\ forall n e, In (n, e) (Calico.report st) ->
             (n = "points" /\ e = Calico.Earned (Calico.earned_points st))
             \/ (n <> "points" /\ In n names
                 /\ In n (Calico.keys (Calico.cases partly_hidden_suite))
                 /\ exists r, e = Calico.Case r).
Proof.
  eexists.
  match goal with
  | |- ?A /\ _ => assert (H : A) by (vm_compute; reflexivity)
  end.
  split; [exact H|]. split; [reflexivity|].
  exact (report_of_run obliging partly_hidden_suite None false None [] _ H).
Defined.

(** X7: a returning [Calico.run] leaves the suite with the names it had, in
    their order, and with its points; each case is the case it was, with
    possibly another script. *)
Theorem run_changes_scripts_only :
  forall (W : World TestCase.t) (self : Calico.t) (tests : option (list string))
         (quiet : bool) (g_timeout : option Z) (h : list call) (st : Calico.state),
    Calico.run W self tests quiet g_timeout h = Ok st ->
    Calico.keys (Calico.cases (Calico.suite st)) = Calico.keys (Calico.cases self)
    /\ Calico.points (Calico.suite st) = Calico.points self
    /\ forall n c', Calico.get n (Calico.cases (Calico.suite st)) = Some c' ->
         exists c, Calico.get n (Calico.cases self) = Some c
                   /\ c' = TestCase.set_script c (TestCase.script c').
Proof.
  intros W self tests quiet g_timeout h st H.
  unfold Calico.run in H.
  destruct (Calico.test_names self tests) as [names|] eqn:Hn; simpl in H; [|discriminate].
  destruct (Calico.run_tests W g_timeout names _) as [st0|] eqn:Ht;
    simpl in H; [|discriminate].
  injection H as <-. simpl.
  pose proof (run_tests_frame _ _ _ _ _ Ht) as (_ & _ & _ & Hp).
  apply run_tests_leaves in Ht. destruct Ht as (_ & _ & Hk & Hc).
  repeat split; auto.
Qed.

(** A run to which X7 applies: the script of the case that is run gets its
    trailing action. *)
Lemma run_changes_scripts_only_witness :
  exists st,
    Calico.run (@obliging TestCase.t) (suite_of [sending_case]) None false None [] = Ok st
    /\ Calico.get "s" (Calico.cases (Calico.suite st))
       = Some (TestCase.set_script sending_case [send_hello; EOF_action])
    /\ Calico.keys (Calico.cases (Calico.suite st))
       = Calico.keys (Calico.cases (suite_of [sending_case]))
    /\ Calico.points (Calico.suite st) = Calico.points (suite_of [sending_case])
    /\ forall n c', Calico.get n (Calico.cases (Calico.suite st)) = Some c' ->
         exists c, Calico.get n (Calico.cases (suite_of [sending_case])) = Some c
                   /\ c' = TestCase.set_script c (TestCase.script c').
Proof.
  eexists.
  match goal with
  | |- ?A /\ _ => assert (H : A) by (vm_compute; reflexivity)
  end.
  split; [exact H|]. split; [reflexivity|].
  exact (run_changes_scripts_only obliging (suite_of [sending_case])
           None false None [] _ H).
Defined.

(** ** Earned points *)

Lemma sum_nonneg (f : string -> Z) (l : list string) :
  (forall n, 0 <= f n) -> 0 <= sum (map f l).
Proof.
  intros Hf. induction l as [|x l IH]; simpl; [lia|]. specialize (Hf x). lia.
Qed.

Lemma sum_filter_le (f : string -> Z) (p : string -> bool) (l : list string) :
  (forall n, 0 <= f n) -> sum (map f (filter p l)) <= sum (map f l).
Proof.
  intros Hf. induction l as [|x l IH]; simpl; [lia|].
  specialize (Hf x). destruct (p x); simpl; lia.
Qed.

(** Changing a function at one name changes its sum over distinct names by
    no more than its new value there, when its values are not negative. *)
Lemma sum_change_one (f f' : string -> Z) (k : string) (l : list string) :
  NoDup l ->
  (forall n, n <> k -> f' n = f n) ->
  0 <= f k -> 0 <= f' k ->
  sum (map f' l) <= sum (map f l) + f' k.
Proof.
  intros Hnd Hsame Hk Hk'. induction Hnd as [|x l Hx Hnd IH]; simpl; [lia|].
  destruct (string_dec x k) as [->|Hne].
  - assert (E : map f' l = map f l).
    { apply map_ext_in. intros n Hn. apply Hsame. intros ->. contradiction. }
    rewrite E. lia.
  - rewrite (Hsame x Hne). lia.
Qed.

Lemma suite_of_keys_NoDup (cs : list TestCase.t) :
  NoDup (Calico.keys (Calico.cases (suite_of cs))).
Proof.
  induction cs as [|c cs IH] using rev_ind; [constructor|].
  rewrite suite_of_snoc. simpl. now apply NoDup_keys_setitem.
Qed.

Lemma suite_of_points_for (cs : list TestCase.t) :
  (forall c, In c cs -> 0 <= declared c) ->
  forall n, 0 <= points_for (Calico.cases (suite_of cs)) n.
Proof.
  induction cs as [|c cs IH] using rev_ind; intros Hpos n.
  - unfold points_for. simpl. lia.
  - rewrite suite_of_snoc. simpl. unfold points_for.
    destruct (string_dec n (TestCase.name c)) as [->|Hne].
    + rewrite get_setitem_same. apply Hpos. apply in_or_app. right. now left.
    + rewrite get_setitem_other by exact Hne.
      apply IH. intros c0 Hc0. apply Hpos. apply in_or_app. now left.
Qed.

(** The points declared by the cases a suite holds are no more than the
    points of the suite, when no case declares negative points. *)
Lemma suite_of_points_le (cs : list TestCase.t) :
  (forall c, In c cs -> 0 <= declared c) ->
  sum (map (points_for (Calico.cases (suite_of cs)))
           (Calico.keys (Calico.cases (suite_of cs))))
  <= Calico.points (suite_of cs).
Proof.
  induction cs as [|c cs IH] using rev_ind; intros Hpos; [simpl; lia|].
  assert (Hpos' : forall c0, In c0 cs -> 0 <= declared c0)
    by (intros c0 Hc0; apply Hpos, in_or_app; now left).
  assert (Hc : 0 <= declared c) by (apply Hpos, in_or_app; right; now left).
  specialize (IH Hpos').
  pose proof (suite_of_points_for cs Hpos') as Hpf.
  rewrite suite_of_snoc.
  set (d := Calico.cases (suite_of cs)) in *.
  change (Calico.cases (Calico.add_case (suite_of cs) c))
    with (Calico.setitem (TestCase.name c) c d).
  change (Calico.points (Calico.add_case (suite_of cs) c))
    with (Calico.points (suite_of cs) + declared c).
  assert (Hsame : forall n, n <> TestCase.name c ->
            points_for (Calico.setitem (TestCase.name c) c d) n = points_for d n).
  { intros n Hn. unfold points_for. now rewrite get_setitem_other. }
  assert (Hnew : points_for (Calico.setitem (TestCase.name c) c d) (TestCase.name c)
                 = declared c)
    by (unfold points_for; now rewrite get_setitem_same).
  destruct (in_dec string_dec (TestCase.name c) (Calico.keys d)) as [Hin|Hout].
  - rewrite keys_setitem_present by exact Hin.
    pose proof (sum_change_one (points_for d)
                  (points_for (Calico.setitem (TestCase.name c) c d))
                  (TestCase.name c) (Calico.keys d)
                  (suite_of_keys_NoDup cs) Hsame (Hpf _)) as Hle.
    rewrite Hnew in Hle. specialize (Hle Hc). lia.
  - rewrite keys_setitem_absent by exact Hout.
    rewrite map_app. unfold sum. rewrite fold_right_app. simpl.
    fold (sum (map (points_for (Calico.setitem (TestCase.name c) c d)) (Calico.keys d))).
    rewrite Hnew.
    assert (E : map (points_for (Calico.setitem (TestCase.name c) c d)) (Calico.keys d)
                = map (points_for d) (Calico.keys d)).
    { apply map_ext_in. intros n Hn. apply Hsame. intros ->. contradiction. }
    assert (Hacc : forall l a, fold_right Z.add a l = sum l + a).
    { induction l as [|x l IHl]; intros a; simpl; [lia|]. rewrite IHl. unfold sum. lia. }
    rewrite Hacc, E. lia.
Qed.

Section EarnedBound.

Context (W : World TestCase.t).

(** The loop earns at least nothing and at most the points declared for
    the names it is given, when no case of the suite declares negative
    points. *)
Lemma run_tests_earned_le g_timeout names :
  forall st st',
    Calico.run_tests W g_timeout names st = Ok st' ->
    (forall n, 0 <= points_for (Calico.cases (Calico.suite st)) n) ->
    Calico.earned_points st <= Calico.earned_points st'
    /\ Calico.earned_points st'
       <= Calico.earned_points st
          + sum (map (points_for (Calico.cases (Calico.suite st))) names).
Proof.
  induction names as [|a rest IH]; intros st st' H Hpos; simpl in H.
  - injection H as <-. simpl. lia.
  - destruct (Calico.run_test W g_timeout a st) as [[st1 stop]|] eqn:H1;
      simpl in H; [|discriminate].
    assert (Hone : Calico.run_tests W g_timeout [a] st = Ok st1).
    { simpl. rewrite H1. simpl. now destruct stop. }
    apply run_tests_frame in Hone. destruct Hone as (_ & _ & Hpts & _).
    apply run_test_Ok in H1.
    destruct H1 as (test & r & self' & Hg & _ & _ & He & _).
    assert (Ha : points_for (Calico.cases (Calico.suite st)) a = declared test)
      by (unfold points_for; now rewrite Hg).
    pose proof (Hpos a) as Hpa. rewrite Ha in Hpa. unfold declared in Hpa, Ha.
    pose proof (sum_nonneg (points_for (Calico.cases (Calico.suite st))) rest Hpos) as Hr.
    assert (Hstep : Calico.earned_points st <= Calico.earned_points st1
                    <= Calico.earned_points st
                       + points_for (Calico.cases (Calico.suite st)) a).
    { rewrite He, Ha. destruct (TestCase.points test); [destruct (passed r)|]; lia. }
    simpl. destruct stop.
    + injection H as <-. lia.
    + destruct (IH _ _ H) as [Hlo Hhi].
      * intros n. rewrite Hpts. apply Hpos.
      * rewrite (map_ext _ _ Hpts) in Hhi. lia.
Qed.

End EarnedBound.



Lemma sum_app (l1 l2 : list Z) : sum (l1 ++ l2) = sum l1 + sum l2.
Proof.
  induction l1 as [|x l1 IH]; simpl; [reflexivity|]. rewrite IH. lia.
Qed.

Section Awarded.

Context (W : World TestCase.t).

(** When every name is run once and has no entry yet, the loop adds to the
    earned points what the entries it writes award. *)
Lemma run_tests_awarded g_timeout names :
  forall st st',
    Calico.run_tests W g_timeout names st = Ok st' ->
    NoDup names ->
    (forall n, In n names -> ~ In n (Calico.keys (Calico.report st))) ->
    Calico.earned_points st' - sum (map awarded_by (Calico.report st'))
    = Calico.earned_points st - sum (map awarded_by (Calico.report st))
    /\ (forall n, In n (Calico.keys (Calico.report st')) ->
                  In n (Calico.keys (Calico.report st)) \/ In n names).
Proof.
  induction names as [|a rest IH]; intros st st' H Hnd Hnew; simpl in H.
  - injection H as <-. auto.
  - inversion Hnd as [|? ? Hnot Hnd']; subst.
    destruct (Calico.run_test W g_timeout a st) as [[st1 stop]|] eqn:H1;
      simpl in H; [|discriminate].
    apply run_test_case in H1.
    destruct H1 as (test & self' & r & _ & _ & _ & Hrep & Haw & He & _).
    assert (Ha : ~ In a (Calico.keys (Calico.report st))) by (apply Hnew; now left).
    rewrite (setitem_absent _ _ _ Ha) in Hrep.
    assert (Hstep : Calico.earned_points st1 - sum (map awarded_by (Calico.report st1))
                    = Calico.earned_points st - sum (map awarded_by (Calico.report st))).
    { rewrite Hrep, map_app, sum_app, He. simpl.
      unfold awarded_by at 2. simpl. unfold scored.
      destruct (TestCase.points test); simpl; [|rewrite Haw]; lia. }
    assert (Hkeys : forall n, In n (Calico.keys (Calico.report st1)) ->
                              In n (Calico.keys (Calico.report st)) \/ n = a).
    { intros n Hn. rewrite Hrep in Hn. unfold Calico.keys in Hn.
      rewrite map_app in Hn. apply in_app_or in Hn.
      destruct Hn as [Hn|[<-|[]]]; auto. }
    destruct stop.
    + injection H as <-. split; [exact Hstep|].
      intros n Hn. destruct (Hkeys n Hn) as [?| ->]; [now left | right; now left].
    + destruct (IH _ _ H Hnd') as [Heq Hk].
      * intros n Hn Hin. destruct (Hkeys n Hin) as [Hold| ->].
        -- apply (Hnew n); [now right | exact Hold].
        -- contradiction.
      * split; [lia|].
        intros n Hn. destruct (Hk n Hn) as [Hin|Hin]; [|right; now right].
        destruct (Hkeys n Hin) as [?| ->]; [now left | right; now left].
Qed.

End Awarded.



(** ** Suites without blockers *)

Lemma spawns_of_calls (l : list Action.t) : filter is_spawn (map call_of l) = [].
Proof.
  induction l as [|a l IH]; simpl; [reflexivity|].
  unfold call_of at 1. destruct (Action.type_ a); simpl; exact IH.
Qed.

Section NoBlocker.

Context (W : World TestCase.t).

Lemma run_tests_all g_timeout names :
  forall st st',
    Calico.run_tests W g_timeout names st = Ok st' ->
    (forall n c, Calico.get n (Calico.cases (Calico.suite st)) = Some c ->
                 TestCase.blocker c = false) ->
    (forall n r, Calico.get n (Calico.report st) = Some (Calico.Case r) ->
                 exists r', Calico.get n (Calico.report st') = Some (Calico.Case r'))
    /\ (forall n, In n names ->
                  exists r, Calico.get n (Calico.report st') = Some (Calico.Case r))
    /\ exists calls,
        Calico.history st' = Calico.history st ++ calls
        /\ List.length (filter is_spawn calls) = List.length names.
Proof.
  induction names as [|a rest IH]; intros st st' H Hnb; simpl in H.
  - injection H as <-. repeat split; eauto; [contradiction|].
    exists []. now rewrite app_nil_r.
  - destruct (Calico.run_test W g_timeout a st) as [[st1 stop]|] eqn:H1;
      simpl in H; [|discriminate].
    assert (Hone : Calico.run_tests W g_timeout [a] st = Ok st1).
    { simpl. rewrite H1. simpl. now destruct stop. }
    apply run_tests_leaves in Hone. destruct Hone as (_ & _ & _ & Hcase).
    apply run_test_case in H1.
    destruct H1 as (test & self' & r & Hg & _ & _ & Hrep & _ & _ & Hstop & k & s & Hh).
    rewrite (Hnb _ _ Hg) in Hstop. simpl in Hstop. subst stop.
    assert (Hnb1 : forall n c, Calico.get n (Calico.cases (Calico.suite st1)) = Some c ->
                               TestCase.blocker c = false).
    { intros n c Hc. destruct (Hcase n c Hc) as (c0 & Hc0 & ->). simpl.
      exact (Hnb _ _ Hc0). }
    destruct (IH _ _ H Hnb1) as (Hkeep & Hall & calls & Hcalls & Hlen).
    assert (Ha : Calico.get a (Calico.report st1) = Some (Calico.Case (scored test r)))
      by (rewrite Hrep; apply get_setitem_same).
    repeat split.
    + intros n r0 Hn. destruct (string_dec n a) as [->|Hne].
      * exact (Hkeep _ _ Ha).
      * apply (Hkeep n r0). rewrite Hrep. now rewrite get_setitem_other.
    + intros n [<-|Hn]; [exact (Hkeep _ _ Ha) | now apply Hall].
    + exists ([Spawn (TestCase.command test) (global_timeout W g_timeout); SetEcho false]
                ++ map call_of (firstn k s) ++ [Close true] ++ calls).
      split.
      * rewrite Hcalls, Hh. repeat rewrite <- app_assoc. reflexivity.
      * simpl. rewrite filter_app, spawns_of_calls. simpl. now rewrite Hlen.
Qed.

End NoBlocker.

(** X10: when no case of the suite is a blocker, a returning [Calico.run]
    runs every name it is given: it spawns one process per name, and the
    report has a case entry for every name other than ["points"]. *)
Theorem every_case_runs_without_blockers :
  forall (W : World TestCase.t) (self : Calico.t) (tests : option (list string))
         (quiet : bool) (g_timeout : option Z) (h : list call)
         (names : list string) (st : Calico.state),
    Calico.test_names self tests = Ok names ->
    (forall n c, Calico.get n (Calico.cases self) = Some c -> TestCase.blocker c = false) ->
    Calico.run W self tests quiet g_timeout h = Ok st ->
    (forall n, In n names -> n <> "points" ->
               exists r, Calico.get n (Calico.report st) = Some (Calico.Case r))
    /\ exists calls,
        Calico.history st = h ++ calls
        /\ List.length (filter is_spawn calls) = List.length names.
Proof.
  intros W self tests quiet g_timeout h names st Hn Hnb H.
  unfold Calico.run in H. rewrite Hn in H. simpl in H.
  destruct (Calico.run_tests W g_timeout names _) as [st0|] eqn:Ht;
    simpl in H; [|discriminate].
  injection H as <-.
  apply run_tests_all in Ht; [|exact Hnb].
  destruct Ht as (_ & Hall & Hcalls).
  split; [|exact Hcalls].
  intros n Hin Hne. destruct (Hall n Hin) as (r & Hr).
  exists r. simpl. now rewrite get_setitem_other.
Qed.

(** A run to which X10 applies: two cases that fail, neither a blocker. *)
Lemma every_case_runs_without_blockers_witness :
  exists st,
    Calico.test_names plain_suite None = Ok ["a"; "b"]
    /\ (forall n c, Calico.get n (Calico.cases plain_suite) = Some c ->
                    TestCase.blocker c = false)
    /\ Calico.run (@hanging TestCase.t) plain_suite None false None [] = Ok st
    /\ Calico.earned_points st = 0
    /\ (forall n, In n ["a"; "b"] -> n <> "points" ->
                  exists r, Calico.get n (Calico.report st) = Some (Calico.Case r))
    /\ exists calls,
        Calico.history st = [] ++ calls
        /\ List.length (filter is_spawn calls) = List.length ["a"; "b"].
Proof.
  eexists.
  assert (Hnb : forall n c, Calico.get n (Calico.cases plain_suite) = Some c ->
                            TestCase.blocker c = false).
  { intros n c Hc. apply get_In in Hc.
    change (Calico.cases plain_suite)
      with [("a", scoring_case); ("b", following_case)] in Hc.
    destruct Hc as [E|[E|[]]]; injection E as <- <-; reflexivity. }
  split; [reflexivity|]. split; [exact Hnb|].
  match goal with
  | |- ?A /\ _ => assert (H : A) by (vm_compute; reflexivity)
  end.
  split; [exact H|]. split; [reflexivity|].
  exact (every_case_runs_without_blockers hanging plain_suite None false None []
           ["a"; "b"] _ eq_refl Hnb H).
Defined.

(** ** What [parse_spec] makes of a case *)

Lemma field_kwargs_inv test key keyword accept msg l :
  field_kwargs test key keyword accept msg = Ok l ->
  (yaml_get test key = Ok None /\ l = [])
  \/ (exists v k, yaml_get test key = Ok (Some v) /\ accept v = Some k
                  /\ l = [(keyword, k)]).
Proof.
  unfold field_kwargs.
  destruct (yaml_get test key) as [[v|]|]; simpl; try discriminate.
  - destruct (accept v) as [k|] eqn:E; [|discriminate].
    intros H. injection H as <-. right. eauto.
  - intros H. injection H as <-. now left.
Qed.

Lemma timeout_kwargs_inv node name test_name l :
  timeout_kwargs node name test_name = Ok l ->
  (get_comment_value node name "timeout" = Ok None /\ l = [])
  \/ (exists t z, get_comment_value node name "timeout" = Ok (Some t)
                  /\ int t = Ok z /\ l = [("timeout", KInt z)]).
Proof.
  unfold timeout_kwargs.
  destruct (get_comment_value node name "timeout") as [[t|]|]; simpl; try discriminate.
  - destruct (assert _ _); simpl; [|discriminate].
    destruct (int t) as [z|] eqn:E; simpl; [|discriminate].
    intros H. injection H as <-. right. eauto.
  - intros H. injection H as <-. now left.
Qed.

(** Adding the steps of a script changes the script only, by one action
    per step, in order. *)
Lemma add_steps_script test_name steps :
  forall case case',
    add_steps test_name case steps = Ok case' ->
    exists actions,
      Forall2 (fun step a => parse_step test_name step = Ok a) steps actions
      /\ case' = TestCase.set_script case (TestCase.script case ++ actions).
Proof.
  induction steps as [|step rest IH]; intros case case' H; simpl in H.
  - injection H as <-. exists []. split; [constructor|].
    rewrite app_nil_r. now destruct case.
  - destruct (parse_step test_name step) as [action|] eqn:Hp; simpl in H; [|discriminate].
    destruct (IH _ _ H) as (actions & Hf & ->).
    exists (action :: actions). split; [now constructor|].
    unfold TestCase.add_action, TestCase.set_script. simpl.
    now rewrite <- app_assoc.
Qed.

(** [parse_spec] makes a case only from a string [run] field, and then
    makes it with the fields of the document. *)
Lemma parse_test_inv (test_name : string) (test : yaml) (case : TestCase.t) :
  parse_test test_name test = Ok case ->
  exists run script,
    yaml_get test "run" = Ok (Some (YStr run))
    /\ case = TestCase.mk test_name run script (timeout_field test "run") (Some 0)
                          (points_field test) (flag_field test "blocker" false)
                          (flag_field test "visible" true)
    /\ ((yaml_get test "script" = Ok None
         /\ script = [Action.init EXPECT "_EOF_" (timeout_field test "run")])
        \/ (exists node steps,
              yaml_get test "script" = Ok (Some node)
              /\ steps_of node = Ok steps
              /\ Forall2 (fun step a => parse_step test_name step = Ok a) steps script)).
Proof.
  unfold parse_test.
  destruct (yaml_get test "run") as [[run|]|] eqn:Hrun; simpl; try discriminate.
  destruct run; simpl; try discriminate.
  destruct (field_kwargs test "return" "returns" _ _) as [k1|] eqn:H1;
    simpl; [|discriminate].
  destruct (timeout_kwargs test "run" test_name) as [k2|] eqn:H2; simpl; [|discriminate].
  destruct (field_kwargs test "points" "points" _ _) as [k3|] eqn:H3;
    simpl; [|discriminate].
  destruct (field_kwargs test "blocker" "blocker" _ _) as [k4|] eqn:H4;
    simpl; [|discriminate].
  destruct (field_kwargs test "visible" "visible" _ _) as [k5|] eqn:H5;
    simpl; [|discriminate].
  apply field_kwargs_inv in H1, H3, H4, H5. apply timeout_kwargs_inv in H2.
  destruct H1 as [[_ ->]|(v1 & q1 & _ & _ & ->)]; [|discriminate].
  assert (Hnew : forall c, TestCase.new test_name s (k2 ++ k3 ++ k4 ++ k5) = Ok c ->
            c = TestCase.mk test_name s [] (timeout_field test "run") (Some 0)
                            (points_field test) (flag_field test "blocker" false)
                            (flag_field test "visible" true)).
  { unfold timeout_field, points_field, flag_field.
    destruct H2 as [[-> ->]|(t2 & z2 & -> & -> & ->)],
             H3 as [[-> ->]|(v3 & q3 & -> & -> & ->)],
             H4 as [[-> ->]|(v4 & q4 & -> & E4 & ->)],
             H5 as [[-> ->]|(v5 & q5 & -> & E5 & ->)];
      try (destruct v4; try discriminate; injection E4 as <-);
      try (destruct v5; try discriminate; injection E5 as <-);
      intros c Hc; injection Hc as <-; reflexivity. }
  simpl. destruct (TestCase.new test_name s _) as [c|]; simpl; [|discriminate].
  rewrite (Hnew c eq_refl). clear Hnew.
  destruct (yaml_get test "script") as [[node|]|] eqn:Hs; simpl; try discriminate.
  - destruct (steps_of node) as [steps|] eqn:Hst; simpl; [|discriminate].
    intros H. apply add_steps_script in H. destruct H as (actions & Hf & ->).
    exists s, actions. split; [reflexivity|]. split; [reflexivity|].
    right. exists node, steps. auto.
  - intros H. injection H as <-.
    exists s, [Action.init EXPECT "_EOF_" (timeout_field test "run")].
    split; [reflexivity|]. split; [reflexivity|]. now left.
Qed.

(** X11: a case that [parse_spec] makes carries the name of its entry, the
    string of its [run] field as command, the timeout of the comment on
    [run] (or [-1]), the [points] field (or none), and the [blocker] and
    [visible] fields (or [False] and [True]). *)
Theorem parsed_case_fields :
  forall (test_name : string) (test : yaml) (case : TestCase.t),
    parse_test test_name test = Ok case ->
    TestCase.name case = test_name
    /\ yaml_get test "run" = Ok (Some (YStr (TestCase.command case)))
    /\ TestCase.timeout case = timeout_field test "run"
    /\ TestCase.points case = points_field test
    /\ TestCase.blocker case = flag_field test "blocker" false
    /\ TestCase.visible case = flag_field test "visible" true.
Proof.
  intros test_name test case H.
  apply parse_test_inv in H. destruct H as (run & script & Hrun & -> & _).
  simpl. repeat split; auto.
Qed.

(** A case to which X11 applies. *)
Lemma parsed_case_fields_witness :
  parse_test "case_1" full_test = Ok full_case
  /\ TestCase.name full_case = "case_1"
  /\ yaml_get full_test "run" = Ok (Some (YStr (TestCase.command full_case)))
  /\ TestCase.timeout full_case = timeout_field full_test "run"
  /\ TestCase.points full_case = points_field full_test
  /\ TestCase.blocker full_case = flag_field full_test "blocker" false
  /\ TestCase.visible full_case = flag_field full_test "visible" true.
Proof.
  assert (H : parse_test "case_1" full_test = Ok full_case) by (vm_compute; reflexivity).
  split; [exact H|].
  exact (parsed_case_fields "case_1" full_test full_case H).
Defined.

(** An action that [parse_spec] makes of a step comes from the constructor
    of [Action]. *)
Lemma parse_step_inv (test_name : string) (step : yaml) (a : Action.t) :
  parse_step test_name step = Ok a ->
  exists ty data t, a = Action.init ty data t.
Proof.
  unfold parse_step.
  destruct (yaml_items step) as [items|]; cbn [bind]; [|discriminate].
  destruct items as [|[action_type data] items]; [discriminate|].
  destruct (Calico.get action_type action_types) as [ty|]; [|discriminate].
  destruct data; try discriminate.
  destruct (timeout_kwargs step action_type test_name) as [kw|]; cbn [bind];
    [|discriminate].
  intros H. injection H as <-. eauto.
Qed.

(** X12: the script of a case that [parse_spec] makes has one action per
    step of the [script] field, in order, each what the step parses to; a
    case without [script] field gets the single action that expects the end
    of output with the timeout of the case.  No action of it holds the string
    [_EOF_] as data: that string is the end-of-output sentinel. *)
Theorem parsed_case_script :
  forall (test_name : string) (test : yaml) (case : TestCase.t),
    parse_test test_name test = Ok case ->
    (yaml_get test "script" = Ok None ->
     TestCase.script case = [Action.mk EXPECT EOF (TestCase.timeout case)])
    /\ (forall node steps,
          yaml_get test "script" = Ok (Some node) ->
          steps_of node = Ok steps ->
          Forall2 (fun step a => parse_step test_name step = Ok a)
                  steps (TestCase.script case))
    /\ Forall (fun a => Action.data a <> Text "_EOF_") (TestCase.script case).
Proof.
  intros test_name test case H.
  apply parse_test_inv in H. destruct H as (run & script & _ & -> & Hs).
  simpl. destruct Hs as [[Hnone ->]|(node & steps & Hnode & Hsteps & Hf)].
  - repeat split.
    + intros node steps Hn. rewrite Hnone in Hn. discriminate.
    + repeat constructor. discriminate.
  - repeat split.
    + intros Hn. rewrite Hnode in Hn. discriminate.
    + intros node' steps' Hn Hst. rewrite Hnode in Hn. injection Hn as <-.
      rewrite Hsteps in Hst. injection Hst as <-. exact Hf.
    + clear - Hf. induction Hf as [|step a steps script Ha _ IH]; constructor; auto.
      apply parse_step_inv in Ha. destruct Ha as (ty & data & t & ->).
      unfold Action.init. simpl.
      destruct (String.eqb data "_EOF_") eqn:E; [discriminate|].
      intros Heq. injection Heq as ->. discriminate.
Qed.

(** A case to which X12 applies. *)
Lemma parsed_case_script_witness :
  parse_test "case_1" full_test = Ok full_case
  /\ TestCase.script full_case
     = [Action.init EXPECT "Name: " (Some 3); Action.init SEND "calico" no_timeout]
  /\ (yaml_get full_test "script" = Ok None ->
      TestCase.script full_case = [Action.mk EXPECT EOF (TestCase.timeout full_case)])
  /\ (forall node steps,
        yaml_get full_test "script" = Ok (Some node) ->
        steps_of node = Ok steps ->
        Forall2 (fun step a => parse_step "case_1" step = Ok a)
                steps (TestCase.script full_case))
  /\ Forall (fun a => Action.data a <> Text "_EOF_") (TestCase.script full_case).
Proof.
  assert (H : parse_test "case_1" full_test = Ok full_case) by (vm_compute; reflexivity).
  split; [exact H|]. split; [reflexivity|].
  exact (parsed_case_script "case_1" full_test full_case H).
Defined.

(** ** What [parse_spec] makes of a document *)

Lemma add_tests_fold (tests : list (string * yaml)) :
  forall runner suite,
    add_tests runner tests = Ok suite ->
    exists cs,
      Forall2 (fun t c => parse_test (fst t) (snd t) = Ok c) tests cs
      /\ suite = fold_left Calico.add_case cs runner.
Proof.
  induction tests as [|[test_name test] rest IH]; intros runner suite H; simpl in H.
  - injection H as <-. exists []. split; [constructor | reflexivity].
  - destruct (parse_test test_name test) as [case|] eqn:Hp; simpl in H; [|discriminate].
    destruct (IH _ _ H) as (cs & Hf & ->).
    exists (case :: cs). split; [now constructor | reflexivity].
Qed.



(** ** Decimal numerals *)

Lemma digits_value_acc (d : Decimal.uint) :
  forall p,
    digits_value (Z.pos p) (NilEmpty.string_of_uint d) = Z.pos (Pos.of_uint_acc d p).
Proof.
  induction d; intros p;
    cbn [NilEmpty.string_of_uint digits_value Pos.of_uint_acc];
    [reflexivity | ..];
    rewrite <- IHd; f_equal;
    match goal with
    | |- context [Z.of_nat (nat_of_ascii ?c)] =>
        let v := eval vm_compute in (Z.of_nat (nat_of_ascii c)) in
        change (Z.of_nat (nat_of_ascii c)) with v
    end; lia.
Qed.

Lemma digits_value_uint (d : Decimal.uint) :
  digits_value 0 (NilEmpty.string_of_uint d) = Z.of_N (Pos.of_uint d).
Proof.
  induction d; cbn [NilEmpty.string_of_uint digits_value Pos.of_uint];
    [reflexivity | exact IHd | ..];
    match goal with
    | |- context [Z.of_nat (nat_of_ascii ?c)] =>
        let v := eval vm_compute in (10 * 0 + (Z.of_nat (nat_of_ascii c) - 48)) in
        change (10 * 0 + (Z.of_nat (nat_of_ascii c) - 48)) with v
    end; apply digits_value_acc.
Qed.

Lemma uint_all_digits (d : Decimal.uint) :
  all_chars is_ascii_digit (NilEmpty.string_of_uint d) = true.
Proof.
  induction d; simpl; auto.
Qed.

Lemma to_uint_not_Nil (p : positive) : Pos.to_uint p <> Decimal.Nil.
Proof.
  intros E. pose proof (DecimalPos.Unsigned.of_to p) as H.
  rewrite E in H. discriminate.
Qed.

Lemma NilZero_uint (d : Decimal.uint) :
  d <> Decimal.Nil -> NilZero.string_of_uint d = NilEmpty.string_of_uint d.
Proof.
  destruct d; [contradiction | reflexivity ..].
Qed.

(** [str] of an int that is not negative is a string of digits that is
    not empty, and [int] of it is the int. *)
Lemma str_int_digits (z : Z) :
  0 <= z ->
  all_chars is_ascii_digit (str_int z) = true
  /\ str_int z <> ""
  /\ digits_value 0 (str_int z) = z.
Proof.
  intros Hz. destruct z as [|p|p]; [repeat split; discriminate | | lia].
  unfold str_int. cbn [Z.to_int NilZero.string_of_int].
  rewrite (NilZero_uint _ (to_uint_not_Nil p)).
  repeat split.
  - apply uint_all_digits.
  - intros E. pose proof (to_uint_not_Nil p) as Hn.
    destruct (Pos.to_uint p); simpl in E; congruence.
  - rewrite digits_value_uint, DecimalPos.Unsigned.of_to. reflexivity.
Qed.

(** [str] of a negative int begins with the minus sign. *)
Lemma str_int_negative (z : Z) :
  z < 0 ->
  exists s, str_int z = String "-" s /\ all_chars is_ascii_digit s = true.
Proof.
  intros Hz. destruct z as [|p|p]; try lia.
  unfold str_int. cbn [Z.to_int NilZero.string_of_int].
  rewrite (NilZero_uint _ (to_uint_not_Nil p)).
  eexists. split; [reflexivity | apply uint_all_digits].
Qed.

(** ** The timeout comment *)

Lemma rstrip_nonempty (s : string) :
  all_chars (fun c => negb (isspace c)) s = true -> rstrip s = s.
Proof.
  induction s as [|c s IH]; simpl; [reflexivity|].
  intros H. apply andb_true_iff in H. destruct H as [Hc Hs].
  rewrite (IH Hs). destruct s; [|reflexivity].
  apply negb_true_iff in Hc. now rewrite Hc.
Qed.

Lemma rstrip_newline (s : string) :
  all_chars (fun c => negb (isspace c)) s = true -> rstrip (s ++ nl) = s.
Proof.
  induction s as [|c s IH]; [reflexivity|].
  intros H. simpl in H. apply andb_true_iff in H. destruct H as [Hc Hs].
  cbn [String.append rstrip]. rewrite (IH Hs). destruct s; [|reflexivity].
  apply negb_true_iff in Hc. now rewrite Hc.
Qed.

Lemma rstrip_append (pre t : string) :
  rstrip t <> "" -> rstrip (pre ++ t) = (pre ++ rstrip t)%string.
Proof.
  intros Ht. induction pre as [|c pre IH]; [reflexivity|].
  cbn [String.append rstrip]. rewrite IH.
  destruct (pre ++ rstrip t)%string eqn:E; [|reflexivity].
  destruct pre; simpl in E; [contradiction | discriminate].
Qed.

(** The comment [# timeout: s], up to the end of its line, gives [s] when
    [s] is not empty and has no white space. *)
Lemma timeout_comment_value (entries : list (string * yaml)) (k s : string) :
  s <> "" ->
  all_chars (fun c => negb (isspace c)) s = true ->
  get_comment_value (YMap entries [(k, Some ("# timeout: " ++ s ++ nl)%string)])
                    k "timeout"
  = Ok (Some s).
Proof.
  intros Hne Hs. unfold get_comment_value.
  cbn [Calico.get]. rewrite String.eqb_refl. cbn [bind].
  assert (Hr : rstrip (s ++ nl) = s) by now apply rstrip_newline.
  assert (E : strip (drop 1 ("# timeout: " ++ s ++ nl)) = ("timeout: " ++ s)%string).
  { change (strip (drop 1 ("# timeout: " ++ s ++ nl)))
      with (rstrip ("timeout: " ++ (s ++ nl))).
    rewrite rstrip_append; rewrite Hr; [reflexivity | exact Hne]. }
  rewrite E.
  change (String.prefix ("timeout" ++ ":") ("timeout: " ++ s)) with true. cbv iota.
  change (drop (String.length ("timeout" ++ ":")) ("timeout: " ++ s))
    with (String " " s).
  unfold strip. change (lstrip (String " " s)) with (lstrip s).
  destruct s as [|c s']; [contradiction|].
  simpl in Hs. apply andb_true_iff in Hs. destruct Hs as [Hc Hs'].
  assert (Hl : lstrip (String c s') = String c s').
  { simpl. apply negb_true_iff in Hc. now rewrite Hc. }
  rewrite Hl, rstrip_nonempty; [reflexivity|].
  simpl. now rewrite Hc, Hs'.
Qed.

Lemma digit_not_space (c : ascii) :
  is_ascii_digit c = true -> negb (isspace c) = true.
Proof.
  unfold is_ascii_digit, isspace. generalize (nat_of_ascii c). intros n H.
  apply andb_true_iff in H. destruct H as [H1 H2].
  apply Nat.leb_le in H1, H2.
  destruct (Nat.leb_spec 9 n), (Nat.leb_spec n 13), (Nat.leb_spec 28 n),
           (Nat.leb_spec n 32), (Nat.eqb_spec n 133), (Nat.eqb_spec n 160);
    simpl; try reflexivity; lia.
Qed.

Lemma digits_no_space (s : string) :
  all_chars is_ascii_digit s = true ->
  all_chars (fun c => negb (isspace c)) s = true.
Proof.
  induction s as [|c s IH]; simpl; [reflexivity|].
  intros H. apply andb_true_iff in H. destruct H as [Hc Hs].
  now rewrite (digit_not_space c Hc), (IH Hs).
Qed.

Lemma digits_isdigit (s : string) :
  s <> "" -> all_chars is_ascii_digit s = true -> isdigit s = true.
Proof.
  intros Hne H. unfold isdigit.
  destruct (String.eqb_spec s ""); [contradiction|]. simpl.
  clear - H. induction s as [|c s IH]; [reflexivity|].
  simpl in H. apply andb_true_iff in H. destruct H as [Hc Hs].
  cbn [all_chars]. rewrite (IH Hs). unfold isdigit_char. now rewrite Hc.
Qed.

Lemma step_node_timeout (kind data : string) (z : Z) :
  z <> -1 ->
  step_node kind data (Some z)
  = YMap [(kind, YStr data)] [(kind, Some ("# timeout: " ++ str_int z ++ nl)%string)].
Proof.
  intros Hz. unfold step_node, timeout_comment, str_optional.
  destruct z as [|p|p]; try reflexivity.
  destruct p; try reflexivity. contradiction.
Qed.

Lemma kind_names (ty : ActionType) :
  Calico.get (snd (value ty)) action_types = Some ty
  /\ Calico.get (fst (value ty)) action_types = Some ty.
Proof.
  destruct ty; split; reflexivity.
Qed.

(** A step without comment parses to the action without timeout. *)
Lemma parse_step_plain (test_name kind data : string) (ty : ActionType) :
  Calico.get kind action_types = Some ty ->
  parse_step test_name (YMap [(kind, YStr data)] [])
  = Ok (Action.init ty data no_timeout).
Proof.
  intros Hk. unfold parse_step. cbn [yaml_items bind]. rewrite Hk. reflexivity.
Qed.

(** A step with the comment of a timeout that is not negative parses to
    the action with that timeout. *)
Lemma parse_step_timed (test_name kind data : string) (ty : ActionType) (z : Z) :
  Calico.get kind action_types = Some ty ->
  0 <= z ->
  parse_step test_name (step_node kind data (Some z)) = Ok (Action.init ty data (Some z)).
Proof.
  intros Hk Hz. rewrite step_node_timeout by lia.
  destruct (str_int_digits z Hz) as (Hd & Hne & Hv).
  unfold parse_step. cbn [yaml_items bind]. rewrite Hk.
  unfold timeout_kwargs.
  rewrite (timeout_comment_value _ _ _ Hne (digits_no_space _ Hd)). cbn [bind].
  rewrite (digits_isdigit _ Hne Hd). cbn [assert bind].
  unfold int. rewrite Hd, Hv. reflexivity.
Qed.

(** A step with the comment of a negative timeout is refused. *)
Lemma parse_step_negative (test_name kind data : string) (ty : ActionType) (z : Z) :
  Calico.get kind action_types = Some ty ->
  z < -1 ->
  parse_step test_name (step_node kind data (Some z))
  = Raise (AssertionError (test_name ++ ": timeout value must be an integer")).
Proof.
  intros Hk Hz. rewrite step_node_timeout by lia.
  destruct (str_int_negative z) as (s & Hs & Hd); [lia|].
  unfold parse_step. cbn [yaml_items bind]. rewrite Hk.
  unfold timeout_kwargs.
  rewrite timeout_comment_value.
  - cbn [bind]. rewrite Hs. reflexivity.
  - rewrite Hs. discriminate.
  - rewrite Hs. simpl. now apply digits_no_space.
Qed.


(** ** The recorder *)

Lemma append_empty_r (s : string) : (s ++ "")%string = s.
Proof. induction s as [|c s IH]; simpl; [reflexivity | now rewrite IH]. Qed.

Lemma join_empty_cons (x : string) (xs : list string) :
  join "" (x :: xs) = (x ++ join "" xs)%string.
Proof.
  destruct xs as [|y ys]; simpl; [now rewrite append_empty_r | reflexivity].
Qed.

(** The lines of [splitlines] are not empty and, put together, give the
    string back. *)
Lemma splitlines_lines (n : nat) :
  forall s, (String.length s <= n)%nat ->
    join "" (splitlines s) = s /\ Forall (fun line => line <> "") (splitlines s).
Proof.
  induction n as [|n IH]; intros s Hn.
  - destruct s; simpl in Hn; [|lia]. split; [reflexivity | constructor].
  - destruct s as [|c s']; [split; [reflexivity | constructor]|].
    simpl in Hn. cbn [splitlines].
    destruct (is_line_boundary c).
    + destruct s' as [|c' s''].
      * split; [reflexivity | repeat constructor; discriminate].
      * destruct (Ascii.eqb c CR && Ascii.eqb c' LF).
        -- destruct (IH s'') as [Hj Hf]; [simpl in Hn; lia|].
           rewrite join_empty_cons, Hj. split; [reflexivity|].
           constructor; [discriminate | exact Hf].
        -- destruct (IH (String c' s'')) as [Hj Hf]; [lia|].
           rewrite join_empty_cons, Hj. split; [reflexivity|].
           constructor; [discriminate | exact Hf].
    + destruct (IH s') as [Hj Hf]; [lia|].
      destruct (splitlines s') as [|line lines].
      * simpl in Hj. subst s'. split; [reflexivity | repeat constructor; discriminate].
      * rewrite join_empty_cons in *. rewrite <- Hj. split; [reflexivity|].
        inversion Hf; subst. constructor; [discriminate | assumption].
Qed.

Lemma drop_last_snoc (s : string) :
  s <> "" -> exists c, s = (drop_last s ++ String c "")%string.
Proof.
  induction s as [|a s IH]; [congruence|]. intros _.
  destruct s as [|b s'].
  - exists a. reflexivity.
  - destruct IH as [c Hc]; [discriminate|]. exists c.
    change (drop_last (String a (String b s')))
      with (String a (drop_last (String b s'))).
    cbn [append]. f_equal. exact Hc.
Qed.

Lemma set_script_same (c : TestCase.t) :
  TestCase.set_script c (TestCase.script c ++ []) = c.
Proof. destruct c. unfold TestCase.set_script. simpl. now rewrite app_nil_r. Qed.

Lemma set_script_twice (c : TestCase.t) (s1 s2 : list Action.t) :
  TestCase.set_script (TestCase.set_script c s1) s2 = TestCase.set_script c s2.
Proof. reflexivity. Qed.

Lemma fold_add_actions (f : string -> Action.t) (lines : list string) :
  forall c,
    fold_left (fun case line => TestCase.add_action case (f line)) lines c
    = TestCase.set_script c (TestCase.script c ++ map f lines).
Proof.
  induction lines as [|l lines IH]; intros c.
  - simpl. now rewrite set_script_same.
  - simpl. rewrite IH. unfold TestCase.add_action.
    rewrite set_script_twice. simpl. now rewrite <- app_assoc.
Qed.

(** X15: a call of the handler that returns only appends to the script of
    the case being recorded.  For a read from file descriptor 0 it appends one
    [Send], of the text read without its last character.  For a read from
    another descriptor it appends one [Expect] per line of the text, in order,
    of the line escaped and with the backslash before each space removed; the
    lines are not empty and together they are the text read. *)
Theorem handler_appends :
  forall (T : Clioc.Host) (current : TestCase.t) (fd : Z) (bs : list Byte.byte)
         (current' : TestCase.t),
    Clioc.read_write_handler T current fd bs = Ok current' ->
    exists data new,
      Clioc.decode_utf8 T bs = Some data
      /\ current' = TestCase.set_script current (TestCase.script current ++ new)
      /\ (fd = 0 ->
          new = [Action.init SEND (drop_last data) no_timeout]
          /\ (data <> "" -> exists c, data = (drop_last data ++ String c "")%string))
      /\ (fd <> 0 ->
          new = map (fun line =>
                       Action.init EXPECT
                         (replace_escaped_spaces (Clioc.escape T line)) no_timeout)
                    (splitlines data)
          /\ join "" (splitlines data) = data
          /\ Forall (fun line => line <> "") (splitlines data)).
Proof.
  intros T current fd bs current' H. unfold Clioc.read_write_handler in H.
  destruct (Clioc.decode_utf8 T bs) as [data|]; [|discriminate].
  exists data.
  destruct (Z.eqb_spec fd 0) as [->|Hfd].
  - injection H as <-. eexists. split; [reflexivity|]. split; [reflexivity|].
    split; [|congruence]. intros _. split; [reflexivity|]. apply drop_last_snoc.
  - injection H as <-. rewrite fold_add_actions. eexists.
    split; [reflexivity|]. split; [reflexivity|].
    split; [congruence|]. intros _. split; [reflexivity|].
    apply (splitlines_lines (String.length data)). lia.
Qed.

(** A read to which X15 applies: two lines of output, the second without
    its end. *)
Lemma handler_appends_witness :
  exists current',
    Clioc.read_write_handler plain_host bare_case 3
      (bytes_of ("Hello" ++ nl ++ "calico")) = Ok current'
    /\ TestCase.script current'
       = [Action.init EXPECT ("Hello" ++ nl) no_timeout;
          Action.init EXPECT "calico" no_timeout]
    /\ exists data new,
        Clioc.decode_utf8 plain_host (bytes_of ("Hello" ++ nl ++ "calico")) = Some data
        /\ current' = TestCase.set_script bare_case (TestCase.script bare_case ++ new)
        /\ (3 = 0 ->
            new = [Action.init SEND (drop_last data) no_timeout]
            /\ (data <> "" -> exists c, data = (drop_last data ++ String c "")%string))
        /\ (3 <> 0 ->
            new = map (fun line =>
                         Action.init EXPECT
                           (replace_escaped_spaces (Clioc.escape plain_host line))
                           no_timeout)
                      (splitlines data)
            /\ join "" (splitlines data) = data
            /\ Forall (fun line => line <> "") (splitlines data)).
Proof.
  eexists.
  match goal with
  | |- ?A /\ _ => assert (H : A) by (vm_compute; reflexivity)
  end.
  split; [exact H|]. split; [reflexivity|].
  exact (handler_appends plain_host _ _ _ _ H).
Defined.

(** What a call of the handler adds to the script. *)
Lemma handler_adds (T : Clioc.Host) (current : TestCase.t) (fd : Z)
    (bs : list Byte.byte) (current' : TestCase.t) :
  Clioc.read_write_handler T current fd bs = Ok current' ->
  exists new,
    current' = TestCase.set_script current (TestCase.script current ++ new)
    /\ Forall (fun a => Action.timeout a = no_timeout) new
    /\ List.length (filter is_send new) = (if fd =? 0 then 1%nat else 0%nat).
Proof.
  unfold Clioc.read_write_handler.
  destruct (Clioc.decode_utf8 T bs) as [data|]; [|discriminate].
  destruct (fd =? 0); intros H; injection H as <-.
  - eexists. split; [reflexivity|]. split; [repeat constructor | reflexivity].
  - rewrite fold_add_actions. eexists. split; [reflexivity|].
    induction (splitlines data) as [|l ls IH]; [split; [constructor | reflexivity]|].
    destruct IH as [IH1 IH2]. split; [constructor; [reflexivity | exact IH1]|].
    exact IH2.
Qed.

Lemma copy_adds (T : Clioc.Host) (todo : list (Z * list Byte.byte)) :
  forall current current',
    Clioc.copy T current todo = Ok current' ->
    exists new,
      current' = TestCase.set_script current (TestCase.script current ++ new)
      /\ Forall (fun a => Action.timeout a = no_timeout) new
      /\ List.length (filter is_send new)
         = List.length (filter (fun rd => fst rd =? 0) todo).
Proof.
  induction todo as [|[fd bs] rest IH]; intros current current' H.
  - injection H as <-. exists []. rewrite set_script_same.
    split; [reflexivity|]. split; [constructor | reflexivity].
  - cbn [Clioc.copy] in H.
    destruct (Clioc.read_write_handler T current fd bs) as [c1|] eqn:H1;
      [|discriminate].
    cbn [bind] in H. apply handler_adds in H1. destruct H1 as (n1 & -> & F1 & L1).
    apply IH in H. destruct H as (n2 & -> & F2 & L2).
    exists (n1 ++ n2). rewrite set_script_twice. cbn [TestCase.set_script TestCase.script].
    rewrite <- app_assoc. split; [reflexivity|].
    split; [apply Forall_app; auto|].
    rewrite filter_app, length_app, L1, L2. cbn [filter fst].
    destruct (fd =? 0); reflexivity.
Qed.

Lemma shiftr_status (code low : Z) :
  0 <= low < 256 -> Z.shiftr (256 * code + low) 8 = code.
Proof.
  intros H. rewrite Z.shiftr_div_pow2 by lia.
  change (2 ^ 8) with 256. symmetry. apply (Z.div_unique _ 256 code low); lia.
Qed.

(** The case that [__create_test_case] returns. *)
Lemma create_test_case_Ok (T : Clioc.Host) (self : Clioc.t) (case_num : Z)
    (r : Clioc.round) (case : TestCase.t) :
  Clioc.create_test_case T self case_num r = Ok case ->
  exists recorded points,
    case = TestCase.mk ("case_" ++ str_int case_num) (join " " (Clioc.argv self))
                       (recorded ++ [EOF_action]) None
                       (Some (Z.shiftr (Clioc.wait_status r) 8)) (Some points)
                       false true
    /\ Clioc.to_int T (Clioc.points_typed r) = Some points
    /\ Forall (fun a => Action.timeout a = no_timeout) recorded
    /\ List.length (filter is_send recorded)
       = List.length (filter (fun rd => fst rd =? 0) (Clioc.reads r)).
Proof.
  intros H. unfold Clioc.create_test_case, Clioc.spawn in H.
  destruct (Clioc.copy T _ (Clioc.reads r)) as [c1|] eqn:Hc; [|discriminate].
  cbn [bind] in H.
  destruct (Clioc.to_int T (Clioc.points_typed r)) as [p|] eqn:Hp; [|discriminate].
  injection H as <-. apply copy_adds in Hc. destruct Hc as (new & -> & F & Ls).
  exists new, p. split; [reflexivity|]. auto.
Qed.

(** X16: a case that [__create_test_case] returns is named [case_] and
    the number given, runs the arguments joined by spaces, has no timeout of
    its own and the default flags; it expects as exit status the wait status
    shifted right by 8 bits, the exit code of a status word whose low byte is
    the signal; its points are the int typed.  Its script is the recorded
    actions, all with the default timeout and with one [Send] per read from
    descriptor 0, followed by the end-of-output action, so that [run_script]
    has nothing to append to it. *)
Theorem recorded_case :
  forall (T : Clioc.Host) (self : Clioc.t) (case_num : Z) (r : Clioc.round)
         (case : TestCase.t),
    Clioc.create_test_case T self case_num r = Ok case ->
    TestCase.name case = ("case_" ++ str_int case_num)%string
    /\ TestCase.command case = join " " (Clioc.argv self)
    /\ TestCase.timeout case = None
    /\ TestCase.blocker case = false
    /\ TestCase.visible case = true
    /\ TestCase.exits case = Some (Z.shiftr (Clioc.wait_status r) 8)
    /\ (forall code low, 0 <= low < 256 ->
          Clioc.wait_status r = 256 * code + low -> TestCase.exits case = Some code)
    /\ TestCase.points case = Clioc.to_int T (Clioc.points_typed r)
    /\ TestCase.points case <> None
    /\ (exists recorded,
          TestCase.script case = recorded ++ [EOF_action]
          /\ Forall (fun a => Action.timeout a = no_timeout) recorded
          /\ List.length (filter is_send recorded)
             = List.length (filter (fun rd => fst rd =? 0) (Clioc.reads r)))
    /\ needs_EOF (TestCase.script case) = false.
Proof.
  intros T self n r case H.
  apply create_test_case_Ok in H. destruct H as (new & p & -> & Hp & F & Ls).
  cbn [TestCase.name TestCase.command TestCase.timeout TestCase.blocker
       TestCase.visible TestCase.exits TestCase.points TestCase.script].
  repeat (split; [reflexivity|]).
  split.
  { intros code low Hl ->. now rewrite shiftr_status. }
  split; [now rewrite Hp|]. split; [discriminate|].
  split; [exists new; auto|].
  rewrite needs_EOF_snoc. reflexivity.
Qed.

(** A round to which X16 applies. *)
Lemma recorded_case_witness :
  exists case,
    Clioc.create_test_case plain_host reference 1 (greeting_round "n") = Ok case
    /\ TestCase.script case
       = [Action.init EXPECT "Name" no_timeout;
          Action.init SEND "calico" no_timeout;
          Action.init EXPECT ("Hello" ++ nl) no_timeout;
          Action.init EXPECT ("calico" ++ nl) no_timeout;
          EOF_action]
    /\ TestCase.name case = ("case_" ++ str_int 1)%string
    /\ TestCase.command case = join " " (Clioc.argv reference)
    /\ TestCase.timeout case = None
    /\ TestCase.blocker case = false
    /\ TestCase.visible case = true
    /\ TestCase.exits case = Some (Z.shiftr (Clioc.wait_status (greeting_round "n")) 8)
    /\ (forall code low, 0 <= low < 256 ->
          Clioc.wait_status (greeting_round "n") = 256 * code + low ->
          TestCase.exits case = Some code)
    /\ TestCase.points case
       = Clioc.to_int plain_host (Clioc.points_typed (greeting_round "n"))
    /\ TestCase.points case <> None
    /\ (exists recorded,
          TestCase.script case = recorded ++ [EOF_action]
          /\ Forall (fun a => Action.timeout a = no_timeout) recorded
          /\ List.length (filter is_send recorded)
             = List.length (filter (fun rd => fst rd =? 0)
                                   (Clioc.reads (greeting_round "n"))))
    /\ needs_EOF (TestCase.script case) = false.
Proof.
  eexists.
  match goal with
  | |- ?A /\ _ => assert (H : A) by (vm_compute; reflexivity)
  end.
  split; [exact H|]. split; [reflexivity|].
  exact (recorded_case plain_host _ _ _ _ H).
Defined.

(** X17: run by [TestCase.run], with whatever process, a recorded case
    keeps the length of its script and its end-of-output action at the end;
    the run spawns the arguments of the recorder joined by spaces, and then
    calls the process for actions of the script, in order, up to the close. *)
Theorem recorded_case_replay :
  forall (D : Type) (W : World D) (T : Clioc.Host) (self : Clioc.t) (case_num : Z)
         (r : Clioc.round) (case : TestCase.t) (defs : option D) (jailed : bool)
         (g_timeout : option Z) (h : list call)
         (rep : TestCase.report) (case' : TestCase.t) (h' : list call),
    Clioc.create_test_case T self case_num r = Ok case ->
    TestCase.run W case defs jailed g_timeout h = Ok (rep, case', h') ->
    List.length (TestCase.script case') = List.length (TestCase.script case)
    /\ last (TestCase.script case') EOF_action = EOF_action
    /\ exists k,
        (k <= List.length (TestCase.script case'))%nat
        /\ h' = h ++ [Spawn (join " " (Clioc.argv self)) (global_timeout W g_timeout);
                      SetEcho false]
                  ++ map call_of (firstn k (TestCase.script case')) ++ [Close true].
Proof.
  intros D W T self n r case defs jailed g h rep case' h' Hc Hr.
  apply create_test_case_Ok in Hc. destruct Hc as (new & p & -> & _).
  apply TestCase_run_Ok in Hr. destruct Hr as (o & Ho & _ & -> & ->).
  cbn [TestCase.command TestCase.script TestCase.set_script] in *.
  apply run_script_Ok in Ho. destruct Ho as (HR & _ & _).
  unfold with_trailing_EOF in HR. rewrite needs_EOF_snoc in HR.
  cbn [is_expect EOF_action Action.init Action.type_ ActionType_eqb negb andb] in HR.
  fold EOF_action in HR.
  destruct (Runs_keeps_trailing_EOF W defs _ _ _ _ _ HR) as (s0 & Hs & Hl).
  apply Runs_calls in HR. destruct HR as (k & Hk & Hh & _).
  split; [rewrite Hs, !length_app, Hl; reflexivity|].
  split; [rewrite Hs; apply last_last|].
  exists k. split; [exact Hk|]. rewrite Hh, <- app_assoc. reflexivity.
Qed.

(** A recorded case and a run of it to which X17 applies. *)
Lemma recorded_case_replay_witness :
  exists case rep case' h',
    Clioc.create_test_case plain_host reference 1 (greeting_round "n") = Ok case
    /\ TestCase.run (@obliging unit) case None false None [] = Ok (rep, case', h')
    /\ List.length (TestCase.script case') = List.length (TestCase.script case)
    /\ last (TestCase.script case') EOF_action = EOF_action
    /\ exists k,
        (k <= List.length (TestCase.script case'))%nat
        /\ h' = [] ++ [Spawn (join " " (Clioc.argv reference))
                             (global_timeout (@obliging unit) None);
                       SetEcho false]
                   ++ map call_of (firstn k (TestCase.script case')) ++ [Close true].
Proof.
  do 4 eexists.
  match goal with
  | |- ?A /\ _ => assert (H : A) by (vm_compute; reflexivity)
  end.
  split; [exact H|].
  match goal with
  | |- ?A /\ _ => assert (H' : A) by (vm_compute; reflexivity)
  end.
  split; [exact H'|].
  exact (recorded_case_replay unit obliging plain_host _ _ _ _ _ _ _ _ _ _ _ H H').
Defined.

(** ** The recorded suite *)

Lemma str_int_inj (a b : Z) : str_int a = str_int b -> a = b.
Proof.
  unfold str_int. intros H. apply DecimalZ.to_int_inj.
  assert (Hn : forall z, Z.to_int z <> Decimal.Pos Decimal.Nil
                         /\ Z.to_int z <> Decimal.Neg Decimal.Nil).
  { intros [|p|p]; simpl; split; try discriminate;
      intros E; injection E as E; now apply to_uint_not_Nil in E. }
  apply (f_equal NilZero.int_of_string) in H.
  destruct (Hn a) as [A1 A2]. destruct (Hn b) as [B1 B2].
  rewrite !NilZero.isi in H by assumption. now injection H.
Qed.

Lemma numbered_ge {A : Type} (l : list A) :
  forall n nr, In nr (numbered n l) -> n <= fst nr.
Proof.
  induction l as [|x l IH]; intros n nr H; [destruct H|].
  destruct H as [<-|H]; [simpl; lia|]. apply IH in H. lia.
Qed.

Lemma numbered_names_NoDup (l : list Clioc.round) :
  forall n, NoDup (map case_name (numbered n l)).
Proof.
  induction l as [|x l IH]; intros n; [constructor|].
  simpl. constructor; [|apply IH].
  intros H. apply in_map_iff in H. destruct H as (nr & E & H).
  apply numbered_ge in H. unfold case_name in E. simpl in E.
  injection E as E. apply str_int_inj in E. lia.
Qed.

Section Suite.

Context (T : Clioc.Host) (self : Clioc.t).

Lemma copy_result (todo : list (Z * list Byte.byte)) :
  forall current,
    (Forall (fun rd => Clioc.decode_utf8 T (snd rd) <> None) todo
     /\ exists current', Clioc.copy T current todo = Ok current')
    \/ (~ Forall (fun rd => Clioc.decode_utf8 T (snd rd) <> None) todo
        /\ Clioc.copy T current todo = Raise UnicodeDecodeError).
Proof.
  induction todo as [|[fd bs] rest IH]; intros current.
  - left. split; [constructor | now exists current].
  - cbn [Clioc.copy]. unfold Clioc.read_write_handler.
    destruct (Clioc.decode_utf8 T bs) as [data|] eqn:Hd.
    + match goal with
      | |- context [bind (if ?b then Ok ?x else Ok ?y) _] =>
          replace (if b then Ok x else Ok y) with (Ok (if b then x else y))
            by (destruct b; reflexivity);
          destruct (IH (if b then x else y)) as [[F E]|[F E]]
      end; cbn [bind].
      * left. split; [|exact E]. constructor; [simpl; congruence | exact F].
      * right. split; [|exact E]. intros F'. inversion F'; subst. contradiction.
    + right. split; [|reflexivity]. intros F. inversion F; subst.
      simpl in *. contradiction.
Qed.

Lemma create_test_case_result (case_num : Z) (r : Clioc.round) :
  (recordable T r /\ exists case, Clioc.create_test_case T self case_num r = Ok case)
  \/ (~ recordable T r
      /\ (Clioc.create_test_case T self case_num r = Raise UnicodeDecodeError
          \/ Clioc.create_test_case T self case_num r = Raise ValueError)).
Proof.
  unfold Clioc.create_test_case, Clioc.spawn, recordable.
  match goal with
  | |- context [Clioc.copy T ?c (Clioc.reads r)] =>
      destruct (copy_result (Clioc.reads r) c) as [[F [c' E]]|[F E]]; rewrite E
  end; cbn [bind].
  - destruct (Clioc.to_int T (Clioc.points_typed r)) as [p|].
    + left. split; [split; [exact F | discriminate] | eexists; reflexivity].
    + right. split; [|now right]. intros [_ H]. now apply H.
  - right. split; [|now left]. intros [H _]. now apply F.
Qed.

(** The loop of [__create_test_suite]: when it ends, it has gone through the
    rounds up to one that raises or at which the operator declines. *)
Lemma create_test_suite_from_Some (rounds : list Clioc.round) :
  forall calico n res,
    Clioc.create_test_suite_from T self calico n rounds = Some res ->
    exists pre r post,
      rounds = pre ++ r :: post
      /\ Forall goes_on pre
      /\ Forall (recordable T) pre
      /\ ((~ recordable T r
           /\ (res = Raise UnicodeDecodeError \/ res = Raise ValueError))
          \/ (recordable T r /\ ~ goes_on r
              /\ exists cs,
                  Forall2 (fun nr c => Clioc.create_test_case T self (fst nr) (snd nr) = Ok c)
                          (numbered n (pre ++ [r])) cs
                  /\ res = Ok (fold_left Calico.add_case cs calico))).
Proof.
  induction rounds as [|r rest IH]; intros calico n res H; [discriminate|].
  cbn [Clioc.create_test_suite_from] in H.
  destruct (create_test_case_result n r) as [[Hr [c E]]|[Hr E]].
  - rewrite E in H.
    destruct (Clioc.continues (Clioc.continue_typed r)) eqn:Hc.
    + apply IH in H. destruct H as (pre & r' & post & -> & G & R & H).
      exists (r :: pre), r', post. split; [reflexivity|].
      split; [constructor; assumption|]. split; [constructor; assumption|].
      destruct H as [H|(R' & G' & cs & F & ->)]; [left; exact H|].
      right. split; [exact R'|]. split; [exact G'|].
      exists (c :: cs). split; [|reflexivity].
      cbn [app numbered]. constructor; [exact E | exact F].
    + injection H as <-. exists [], r, rest. split; [reflexivity|].
      split; [constructor|]. split; [constructor|]. right.
      split; [exact Hr|]. split; [unfold goes_on; congruence|].
      exists [c]. split; [|reflexivity]. repeat constructor. exact E.
  - exists [], r, rest. split; [reflexivity|].
    split; [constructor|]. split; [constructor|]. left. split; [exact Hr|].
    destruct E as [E|E]; rewrite E in H; injection H as <-; auto.
Qed.

Lemma create_test_suite_from_None (rounds : list Clioc.round) :
  forall calico n,
    Clioc.create_test_suite_from T self calico n rounds = None ->
    Forall goes_on rounds /\ Forall (recordable T) rounds.
Proof.
  induction rounds as [|r rest IH]; intros calico n H; [split; constructor|].
  cbn [Clioc.create_test_suite_from] in H.
  destruct (create_test_case_result n r) as [[Hr [c E]]|[Hr [E|E]]];
    rewrite E in H; try discriminate.
  destruct (Clioc.continues (Clioc.continue_typed r)) eqn:Hc; [|discriminate].
  apply IH in H. destruct H. split; constructor; assumption.
Qed.

Lemma recorded_names (rounds : list (Z * Clioc.round)) (cs : list TestCase.t) :
  Forall2 (fun nr c => Clioc.create_test_case T self (fst nr) (snd nr) = Ok c) rounds cs ->
  map TestCase.name cs = map case_name rounds
  /\ Forall (fun c => TestCase.points c <> None) cs.
Proof.
  induction 1 as [|nr c rounds cs H _ [IH1 IH2]]; [split; constructor|].
  apply create_test_case_Ok in H. destruct H as (new & p & -> & _).
  simpl. rewrite IH1. split; [reflexivity|].
  constructor; [discriminate | exact IH2].
Qed.

End Suite.

(** X18: a suite that [__create_test_suite] returns holds one case per
    round up to the first round at which the operator declines, recorded in
    that round with the number of the round, under the names [case_1],
    [case_2], ... in order.  The names differ from each other, so that the
    points of the suite are the sum of the points of its cases, and none is
    hidden: a default run takes them all. *)
Theorem recorded_suite :
  forall (T : Clioc.Host) (self : Clioc.t) (rounds : list Clioc.round)
         (suite : Calico.t),
    Clioc.create_test_suite T self rounds = Some (Ok suite) ->
    exists pre r post cs,
      rounds = pre ++ r :: post
      /\ Forall goes_on pre
      /\ ~ goes_on r
      /\ Forall2 (fun nr c => Clioc.create_test_case T self (fst nr) (snd nr) = Ok c)
                 (numbered 1 (pre ++ [r])) cs
      /\ Calico.cases suite = map (fun c => (TestCase.name c, c)) cs
      /\ Calico.keys (Calico.cases suite) = map case_name (numbered 1 (pre ++ [r]))
      /\ NoDup (Calico.keys (Calico.cases suite))
      /\ Calico.points suite = sum (map declared cs)
      /\ Calico.test_names suite None = Ok (Calico.keys (Calico.cases suite)).
Proof.
  intros T self rounds suite H. unfold Clioc.create_test_suite in H.
  apply create_test_suite_from_Some in H.
  destruct H as (pre & r & post & -> & G & R & [[_ [H|H]]|(Rr & Gr & cs & F & H)]);
    try discriminate.
  injection H as ->. exists pre, r, post, cs.
  destruct (recorded_names T self _ _ F) as [Hn Hp].
  assert (Hc : Calico.cases (fold_left Calico.add_case cs Calico.init)
               = map (fun c => (TestCase.name c, c)) cs).
  { rewrite cases_fold_add_case; [reflexivity|]. simpl. rewrite Hn.
    apply numbered_names_NoDup. }
  assert (Hk : Calico.keys (Calico.cases (fold_left Calico.add_case cs Calico.init))
               = map case_name (numbered 1 (pre ++ [r]))).
  { rewrite Hc. unfold Calico.keys. rewrite map_map. simpl. exact Hn. }
  split; [reflexivity|]. split; [exact G|]. split; [exact Gr|].
  split; [exact F|]. split; [exact Hc|]. split; [exact Hk|].
  split; [rewrite Hk; apply numbered_names_NoDup|].
  split; [now rewrite points_fold_add_case|].
  unfold Calico.test_names.
  destruct (Calico.runnable _) as [names|e] eqn:E.
  - f_equal. eapply runnable_visible; [exact E|].
    intros n Hin. rewrite Hk in Hin. apply in_map_iff in Hin.
    destruct Hin as (nr & <- & _). reflexivity.
  - exfalso. destruct (runnable_filter (Calico.keys
        (Calico.cases (fold_left Calico.add_case cs Calico.init)))) as [_ Hf].
    rewrite Hf in E; [discriminate|].
    rewrite Hk. intros Hin. apply in_map_iff in Hin.
    destruct Hin as (nr & Hnr & _). discriminate.
Qed.

(** A session to which X18 applies: the operator goes on after the first
    round and declines after the second; the third round is not read. *)
Lemma recorded_suite_witness :
  exists suite,
    Clioc.create_test_suite plain_host reference
      [greeting_round "Y"; greeting_round "no"; greeting_round ""] = Some (Ok suite)
    /\ Calico.keys (Calico.cases suite) = ["case_1"; "case_2"]
    /\ Calico.points suite = 10
    /\ exists pre r post cs,
        [greeting_round "Y"; greeting_round "no"; greeting_round ""] = pre ++ r :: post
        /\ Forall goes_on pre
        /\ ~ goes_on r
        /\ Forall2 (fun nr c =>
                      Clioc.create_test_case plain_host reference (fst nr) (snd nr) = Ok c)
                   (numbered 1 (pre ++ [r])) cs
        /\ Calico.cases suite = map (fun c => (TestCase.name c, c)) cs
        /\ Calico.keys (Calico.cases suite) = map case_name (numbered 1 (pre ++ [r]))
        /\ NoDup (Calico.keys (Calico.cases suite))
        /\ Calico.points suite = sum (map declared cs)
        /\ Calico.test_names suite None = Ok (Calico.keys (Calico.cases suite)).
Proof.
  eexists.
  match goal with
  | |- ?A /\ _ => assert (H : A) by (vm_compute; reflexivity)
  end.
  split; [exact H|]. split; [reflexivity|]. split; [reflexivity|].
  exact (recorded_suite plain_host _ _ _ H).
Defined.

Lemma create_test_suite_from_declined (T : Clioc.Host) (self : Clioc.t)
    (pre : list Clioc.round) (r : Clioc.round) (post : list Clioc.round) :
  Forall goes_on pre -> ~ goes_on r ->
  forall calico n,
    exists res,
      Clioc.create_test_suite_from T self calico n (pre ++ r :: post) = Some res
      /\ Clioc.create_test_suite_from T self calico n (pre ++ [r]) = Some res
      /\ (is_ok res = true <-> Forall (recordable T) (pre ++ [r]))
      /\ (forall e, res = Raise e -> e = UnicodeDecodeError \/ e = ValueError).
Proof.
  intros G Gr. induction G as [|r0 pre G0 G IH]; intros calico n.
  - cbn [app Clioc.create_test_suite_from].
    destruct (create_test_case_result T self n r) as [[Hr [c E]]|[Hr E]].
    + rewrite E. unfold goes_on in Gr.
      destruct (Clioc.continues (Clioc.continue_typed r)); [congruence|].
      eexists. split; [reflexivity|]. split; [reflexivity|].
      split; [|discriminate].
      split; [intros _; constructor; [exact Hr | constructor] | reflexivity].
    + assert (Hf : ~ Forall (recordable T) [r])
        by (intros F; inversion F; contradiction).
      destruct E as [E|E]; rewrite E; eexists;
        (split; [reflexivity|]); (split; [reflexivity|]);
        (split; [split; [discriminate | intros F; contradiction]|]);
        intros e H; injection H as <-; auto.
  - cbn [app Clioc.create_test_suite_from].
    destruct (create_test_case_result T self n r0) as [[Hr [c E]]|[Hr E]].
    + rewrite E. unfold goes_on in G0. rewrite G0.
      destruct (IH (Calico.add_case calico c) (n + 1)) as (res & H1 & H2 & H3 & H4).
      exists res. split; [exact H1|]. split; [exact H2|]. split; [|exact H4].
      rewrite H3. split; [intros F; constructor; assumption|].
      intros F. now inversion F.
    + assert (Hf : ~ Forall (recordable T) (r0 :: pre ++ [r]))
        by (intros F; inversion F; contradiction).
      destruct E as [E|E]; rewrite E; eexists;
        (split; [reflexivity|]); (split; [reflexivity|]);
        (split; [split; [discriminate | intros F; contradiction]|]);
        intros e H; injection H as <-; auto.
Qed.

Lemma create_test_suite_from_goes_on (T : Clioc.Host) (self : Clioc.t)
    (rounds : list Clioc.round) :
  Forall goes_on rounds -> Forall (recordable T) rounds ->
  forall calico n, Clioc.create_test_suite_from T self calico n rounds = None.
Proof.
  induction 1 as [|r rest G0 G IH]; intros R calico n; [reflexivity|].
  inversion R as [|? ? R0 R']; subst.
  cbn [Clioc.create_test_suite_from].
  destruct (create_test_case_result T self n r) as [[_ [c E]]|[Hr _]];
    [|contradiction].
  rewrite E. unfold goes_on in G0. rewrite G0. now apply IH.
Qed.

(** X19: [generate_test_spec] needs a further round exactly when the
    operator has asked to continue after every round so far and every round
    could be recorded.  Once the operator declines, the rounds after that one
    are not read, and the result is a specification when every round up to
    there decodes and has an int typed for the points; otherwise one round
    raises [UnicodeDecodeError] or [ValueError] and no specification is
    returned. *)
Theorem recording_ends :
  forall (T : Clioc.Host) (L : Library) (self : Clioc.t) (rounds : list Clioc.round),
    (Clioc.generate_test_spec T L self rounds = None
     <-> Forall goes_on rounds /\ Forall (recordable T) rounds)
    /\ forall pre r post,
         rounds = pre ++ r :: post -> Forall goes_on pre -> ~ goes_on r ->
         exists res,
           Clioc.generate_test_spec T L self rounds = Some res
           /\ Clioc.generate_test_spec T L self (pre ++ [r]) = Some res
           /\ (is_ok res = true <-> Forall (recordable T) (pre ++ [r]))
           /\ (forall e, res = Raise e -> e = UnicodeDecodeError \/ e = ValueError).
Proof.
  intros T L self rounds. unfold Clioc.generate_test_spec, Clioc.create_test_suite.
  split.
  - split.
    + destruct (Clioc.create_test_suite_from T self Calico.init 1 rounds) eqn:E;
        [discriminate|].
      intros _. eapply create_test_suite_from_None. exact E.
    + intros [G R]. now rewrite create_test_suite_from_goes_on.
  - intros pre r post -> G Gr.
    destruct (create_test_suite_from_declined T self pre r post G Gr Calico.init 1)
      as (res & H1 & H2 & H3 & H4).
    rewrite H1, H2. eexists. split; [reflexivity|]. split; [reflexivity|].
    destruct res as [suite|e]; cbn [bind is_ok] in *.
    + split; [exact H3 | discriminate].
    + split; [exact H3|]. intros e' H. injection H as <-. now apply H4.
Qed.

(** ** A document with a test that is refused *)

Lemma add_tests_all (tests : list (string * yaml)) :
  forall runner,
    (is_ok (add_tests runner tests) = true
     <-> Forall (fun t => is_ok (parse_test (fst t) (snd t)) = true) tests)
    /\ forall pre t post e,
         tests = pre ++ t :: post ->
         Forall (fun t => is_ok (parse_test (fst t) (snd t)) = true) pre ->
         parse_test (fst t) (snd t) = Raise e ->
         add_tests runner tests = Raise e.
Proof.
  induction tests as [|[n t] rest IH]; intros runner.
  - split; [split; [constructor | reflexivity]|].
    intros [|? ?] ? ? ? H; discriminate.
  - cbn [add_tests]. destruct (parse_test n t) as [case|e0] eqn:E; cbn [bind].
    + destruct (IH (Calico.add_case runner case)) as [IH1 IH2]. split.
      * rewrite IH1. split; [intros F; constructor; [simpl; now rewrite E | exact F]|].
        intros F. now inversion F.
      * intros [|t0 pre] t' post e H F He.
        -- injection H as <- <-. simpl in He. congruence.
        -- injection H as <- ->. inversion F; subst. eapply IH2; eauto.
    + split.
      * split; [discriminate|]. intros F. inversion F as [|? ? H0 _]; subst.
        simpl in H0. rewrite E in H0. discriminate.
      * intros [|t0 pre] t' post e H F He.
        -- injection H as <- <-. simpl in He. congruence.
        -- injection H as <- ->. inversion F as [|? ? H0 _]; subst.
           simpl in H0. rewrite E in H0. discriminate.
Qed.

(** X20: of a document that loads as a sequence of mappings, [parse_spec]
    returns a suite exactly when every test of it makes a case; otherwise it
    raises what the first test in the order of the document that makes none
    raises, and returns no suite for the tests before it. *)
Theorem parse_all_or_nothing :
  forall (L : Library) (content : string) (items : list yaml)
         (tests : list (string * yaml)),
    round_trip_load L content = Ok (YSeq items) ->
    collect_tests items = Ok tests ->
    (is_ok (parse_spec L content) = true
     <-> Forall (fun t => is_ok (parse_test (fst t) (snd t)) = true) tests)
    /\ forall pre t post e,
         tests = pre ++ t :: post ->
         Forall (fun t => is_ok (parse_test (fst t) (snd t)) = true) pre ->
         parse_test (fst t) (snd t) = Raise e ->
         parse_spec L content = Raise e.
Proof.
  intros L content items tests Hl Hc.
  unfold parse_spec. rewrite Hl. cbn [parse_document]. rewrite Hc. cbn [bind].
  apply add_tests_all.
Qed.

(** A document to which X20 applies: its second test has no [run] field. *)
Lemma parse_all_or_nothing_witness :
  round_trip_load (loading refused_second) "" = Ok (YSeq refused_second_items)
  /\ collect_tests refused_second_items
     = Ok [("a", YMap [("run", YStr "first")] []); ("b", YMap [("points", YInt 1)] [])]
  /\ parse_spec (loading refused_second) ""
     = Raise (AssertionError "b: no run command")
  /\ (is_ok (parse_spec (loading refused_second) "") = true
      <-> Forall (fun t => is_ok (parse_test (fst t) (snd t)) = true)
                 [("a", YMap [("run", YStr "first")] []);
                  ("b", YMap [("points", YInt 1)] [])])
  /\ forall pre t post e,
       [("a", YMap [("run", YStr "first")] []); ("b", YMap [("points", YInt 1)] [])]
       = pre ++ t :: post ->
       Forall (fun t => is_ok (parse_test (fst t) (snd t)) = true) pre ->
       parse_test (fst t) (snd t) = Raise e ->
       parse_spec (loading refused_second) "" = Raise e.
Proof.
  assert (H1 : round_trip_load (loading refused_second) ""
               = Ok (YSeq refused_second_items)) by reflexivity.
  assert (H2 : collect_tests refused_second_items
               = Ok [("a", YMap [("run", YStr "first")] []);
                     ("b", YMap [("points", YInt 1)] [])]) by reflexivity.
  split; [exact H1|]. split; [exact H2|]. split; [reflexivity|].
  exact (parse_all_or_nothing _ _ _ _ H1 H2).
Defined.

(** ** When [run_script] returns *)

Section Returns.

Context {D : Type} (W : World D) (defs : option D).
Hypothesis HW : well_behaved W.

Lemma invoke_returns (h : list call) (c : call) :
  match c with ExpectCall _ _ => False | _ => True end ->
  invoke W h c = Ok (h ++ [c]).
Proof.
  intros Hc. unfold invoke. specialize (HW h c).
  destruct c; try contradiction;
    destruct (respond W _); try reflexivity; contradiction.
Qed.

Lemma run_actions_returns (todo : list Action.t) :
  Forall (fun a => is_ok (substitute W defs a) = true) todo ->
  forall h, exists errors script h',
    run_actions W defs todo h = Ok (errors, script, h')
    /\ (List.length errors <= 1)%nat.
Proof.
  induction 1 as [|a rest Ha _ IH]; intros h.
  - cbn [run_actions]. rewrite invoke_returns by exact I. cbn [bind].
    do 3 eexists. split; [reflexivity | simpl; lia].
  - cbn [run_actions].
    destruct (substitute W defs a) as [a'|] eqn:Es; [|discriminate]. cbn [bind].
    destruct (Action.type_ a').
    + pose proof (HW h (ExpectCall (Action.data a') (Action.timeout a'))) as Hr.
      cbn beta iota in Hr.
      destruct (respond W _) as [after|e before].
      * destruct (received W after); [|discriminate]. cbn [bind].
        destruct (IH (h ++ [ExpectCall (Action.data a') (Action.timeout a')]))
          as (errs & s & h' & -> & Hl).
        cbn [bind]. do 3 eexists. split; [reflexivity | exact Hl].
      * destruct Hr as [[-> | ->] Hb];
          (destruct (received W before); [|discriminate]); cbn [bind];
          rewrite invoke_returns by exact I; cbn [bind];
          do 3 eexists; (split; [reflexivity | simpl; lia]).
    + rewrite invoke_returns by exact I. cbn [bind].
      destruct (IH (h ++ [SendLine (Action.data a')])) as (errs & s & h' & -> & Hl).
      cbn [bind]. do 3 eexists. split; [reflexivity | exact Hl].
Qed.

End Returns.


Lemma hanging_well_behaved : well_behaved (@hanging unit).
Proof.
  intros h c. unfold hanging. cbn [respond].
  destruct c; rewrite last_Some_snoc; try exact I.
  split; [now right | reflexivity].
Qed.


(** ** A name that is not in the suite *)

Lemma Passes_keys (W : World TestCase.t) (g_timeout : option Z)
    (names : list string) (st st1 : Calico.state) :
  Passes W g_timeout names st st1 ->
  Calico.keys (Calico.cases (Calico.suite st1))
  = Calico.keys (Calico.cases (Calico.suite st)).
Proof.
  induction 1 as [|n names st st1 st2 Hn _ IH]; [reflexivity|].
  rewrite IH. apply run_test_case in Hn.
  destruct Hn as (test & self' & r & Hg & _ & Hs & _).
  rewrite Hs. simpl. apply keys_setitem_present. eapply get_Some_keys. exact Hg.
Qed.

(** X22: when the loop of [Calico.run] comes, without having taken the
    [break], to a name that is not a name of the suite, the run raises
    [AttributeError]: no report is returned, neither for the cases run before
    that name. *)
Theorem unknown_name_raises :
  forall (W : World TestCase.t) (self : Calico.t) (quiet : bool)
         (g_timeout : option Z) (h : list call)
         (pre : list string) (n : string) (post : list string) (st1 : Calico.state),
    Passes W g_timeout pre (start self h) st1 ->
    ~ In n (Calico.keys (Calico.cases self)) ->
    Calico.run W self (Some (pre ++ n :: post)) quiet g_timeout h = Raise AttributeError.
Proof.
  intros W self quiet g h pre n post st1 HP Hn.
  unfold Calico.run. cbn [Calico.test_names bind].
  fold (start self h). rewrite (Passes_run_tests W g pre (n :: post) _ _ HP).
  cbn [Calico.run_tests]. unfold Calico.run_test.
  rewrite get_None; [reflexivity|].
  rewrite (Passes_keys W g _ _ _ HP). exact Hn.
Qed.

(** A run to which X22 applies: the second name is not in the suite. *)
Lemma unknown_name_raises_witness :
  exists st1,
    Calico.run_test (@obliging TestCase.t) None "a" (start plain_suite []) = Ok (st1, false)
    /\ Passes (@obliging TestCase.t) None ["a"] (start plain_suite []) st1
    /\ ~ In "c" (Calico.keys (Calico.cases plain_suite))
    /\ Calico.run (@obliging TestCase.t) plain_suite (Some (["a"] ++ "c" :: ["b"]))
                  false None []
       = Raise AttributeError.
Proof.
  eexists.
  match goal with
  | |- ?A /\ _ => assert (H : A) by (vm_compute; reflexivity)
  end.
  split; [exact H|].
  assert (HP : Passes (@obliging TestCase.t) None ["a"] (start plain_suite []) _)
    by (eapply Passes_cons; [exact H | apply Passes_nil]).
  assert (Hn : ~ In "c" (Calico.keys (Calico.cases plain_suite)))
    by (intros [E|[E|[]]]; discriminate).
  split; [exact HP|]. split; [exact Hn|].
  exact (unknown_name_raises obliging plain_suite false None [] ["a"] "c" ["b"] _ HP Hn).
Defined.
